(** * Constraint-satisfaction examples of Chapter 5: map colouring and
    course scheduling.

    The two notebooks define one class each, [MapColoringProblem] and
    [CourseSchedulingProblem], both deriving from [CSPProblem].  Each class
    has a constructor that computes the initial domains and a predicate
    [is_consistent(variable, value, assignment)].

    The embedding is shallow.  Python code that reads mutable objects runs
    in a small state-and-exception monad [M]; dictionaries are [gmap]s;
    the list objects whose identity matters (the argument of [.copy()] and
    the copies) live in a heap indexed by locations.  Arguments have the
    types the signatures and docstrings give them: names and colours are
    strings, a value of a course is a tuple [(time, room)], the conflicts
    are a list of pairs. *)

From stdpp Require Import gmap strings list fin_maps.

Open Scope string_scope.
Open Scope list_scope.
Open Scope nat_scope.

(** ** The fragment of the Python runtime the notebooks rely on *)

Inductive exn :=
  | KeyError (key : string)
  | TypeError
  | AttributeError (name : string)
  | ValueError.

Inductive result (A : Type) :=
  | Ok (a : A)
  | Raise (e : exn).
Arguments Ok {A} a.
Arguments Raise {A} e.

(** A computation over a mutable store [S]: it yields a value or raises,
    and in both cases hands back the store it leaves behind. *)
Definition M (S A : Type) : Type := S → result A * S.

#[export] Instance M_ret {S} : MRet (M S) := λ A a σ, (Ok a, σ).
#[export] Instance M_bind {S} : MBind (M S) := λ A B f m σ,
  match m σ with
  | (Ok a, σ') => f a σ'
  | (Raise e, σ') => (Raise e, σ')
  end.

Definition raise {S A} (e : exn) : M S A := λ σ, (Raise e, σ).
Definition gets {S A} (f : S → A) : M S A := λ σ, (Ok (f σ), σ).

(** [for x in xs: body].  The body answers [Some r] when it executes
    [return r] and [None] when it reaches its end (or [continue]); the loop
    answers [None] when it runs to exhaustion. *)
Fixpoint for_each {S A R} (xs : list A) (body : A → M S (option R))
  : M S (option R) :=
  match xs with
  | [] => mret None
  | x :: rest =>
      r ← body x;
      match r with
      | Some v => mret (Some v)
      | None => for_each rest body
      end
  end.

(** The boolean a predicate call yields.  Neither predicate ever raises;
    should a call raise, the pair counts as not accepted. *)
Definition holds {S} (m : M S bool) (σ : S) : bool :=
  match (m σ).1 with
  | Ok b => b
  | Raise _ => false
  end.

(** Locations of list objects. *)
Definition loc := nat.

(** [xs.copy()]: a new list object with the elements of the list at [l]. *)
Definition list_copy {V} (l : loc) : M (gmap loc (list V)) loc := λ h,
  match h !! l with
  | Some xs => let l' := fresh (dom h) in (Ok l', <[l' := xs]> h)
  | None => (Raise TypeError, h)
  end.

(** A list display or comprehension: a new list object holding [xs]. *)
Definition list_new {V} (xs : list V) : M (gmap loc (list V)) loc := λ h,
  let l' := fresh (dom h) in (Ok l', <[l' := xs]> h).

(** [{key: value(key) for key in keys}]: the entries are computed and
    stored in list order, a later duplicate key replacing the earlier
    entry. *)
Fixpoint dict_comprehension {S V} (keys : list string) (value : string → M S V)
    (d : gmap string V) : M S (gmap string V) :=
  match keys with
  | [] => mret d
  | key :: rest =>
      v ← value key;
      dict_comprehension rest value (<[key := v]> d)
  end.

(** [domains] gives every key of [keys], and no other, a list object of its
    own that holds [xs] and was created on the way from heap [h] to heap
    [h']. *)
Definition fresh_copies {V} (h h' : gmap loc (list V))
    (domains : gmap string loc) (keys : list string) (xs : list V) : Prop :=
  (∀ k, k ∈ keys →
     ∃ l, domains !! k = Some l ∧ h' !! l = Some xs ∧ h !! l = None)
  ∧ (∀ k, k ∉ keys → domains !! k = None)
  ∧ (∀ k k' l, k ≠ k' → domains !! k = Some l → domains !! k' ≠ Some l).

(** A computation that leaves every store as it found it. *)
Definition readonly {S A} (m : M S A) : Prop := ∀ σ, (m σ).2 = σ.

(** The first [return] a loop executes when its body only reads: [g x] is
    what the body does at [x]. *)
Definition first_return {A R} (g : A → option R) (xs : list A) : option R :=
  foldr (λ x acc, match g x with Some v => Some v | None => acc end) None xs.

(** The assignments a search can reach: starting from the empty one, an
    entry [variable := value] is stored only after the predicate accepted
    the pair against the assignment as it was. *)
Inductive built {V} (accepts : string → V → gmap string V → bool)
  : gmap string V → Prop :=
  | built_empty : built accepts ∅
  | built_insert assignment variable value :
      built accepts assignment →
      accepts variable value assignment = true →
      built accepts (<[variable := value]> assignment).

(** ** The base class *)

Module CSPProblem.

Record fields := Fields {
  variables : list string;
  domains : gmap string loc
}.

(** Modelled from the spec: the constructor of the base class
    [CSPProblem] belongs to the imported package and is not part of the
    notebooks.  A problem exposes the list of its variables and the
    mapping from each variable to its initial domain, so the constructor
    keeps its two arguments as they are. *)
Definition __init__ (variables : list string) (domains : gmap string loc)
  : fields := Fields variables domains.


End CSPProblem.

(** ** The solver *)

Module Solver.

(** Modelled from the spec: the solver is part of the imported package and
    not of the notebooks; the definitions of this module follow the
    contract and the algorithm the specification gives for it.  A problem
    exposes its variables in a fixed order, the mapping from a variable to
    its domain, and the constraint predicate, which the contract assumes
    pure. *)
Record problem (V : Type) := Problem {
  variables : list string;
  domain : string → list V;
  is_consistent : string → V → gmap string V → bool
}.
Arguments Problem {V}.
Arguments variables {V}.
Arguments domain {V}.
Arguments is_consistent {V}.

(** Modelled from the spec: the search produces a complete assignment or
    the no-solution signal.  [OutOfFuel] is an artefact of the recursion
    on [fuel]; [backtracking_search] never yields it. *)
Inductive outcome (V : Type) :=
  | Solution (assignment : gmap string V)
  | NoSolution
  | OutOfFuel.
Arguments Solution {V}.
Arguments NoSolution {V}.
Arguments OutOfFuel {V}.

(** Modelled from the spec: step 2, the first variable, in the fixed
    order, without a value. *)
Definition select_unassigned {V} (p : problem V) (assignment : gmap string V)
  : option string :=
  snd <$> list_find (λ v, assignment !! v = None) (variables p).

(** Modelled from the spec: steps 3 and 4 for one variable.  The candidates
    are tried in domain order; an accepted candidate is added and the
    search continues on the extended assignment ([recurse]); success is
    handed up at once, failure moves on to the next candidate from the
    assignment as it was; without candidates left the branch fails. *)
Fixpoint try_values {V} (p : problem V) (recurse : gmap string V → outcome V)
    (var : string) (values : list V) (assignment : gmap string V)
  : outcome V :=
  match values with
  | [] => NoSolution
  | value :: rest =>
      if is_consistent p var value assignment then
        match recurse (<[var := value]> assignment) with
        | Solution s => Solution s
        | NoSolution => try_values p recurse var rest assignment
        | OutOfFuel => OutOfFuel
        end
      else try_values p recurse var rest assignment
  end.

(** Modelled from the spec: steps 1 to 4.  A complete assignment is
    returned; otherwise the selected variable is tried. *)
Fixpoint backtrack {V} (p : problem V) (fuel : nat)
    (assignment : gmap string V) : outcome V :=
  match fuel with
  | 0 => OutOfFuel
  | S fuel' =>
      match select_unassigned p assignment with
      | None => Solution assignment
      | Some var =>
          try_values p (backtrack p fuel') var (domain p var) assignment
      end
  end.

(** Modelled from the spec: [backtracking_search], the entry point the
    notebooks call.  The search starts from the empty assignment.  Each
    level of the recursion assigns one more variable, so one unit of fuel
    per variable and one for the final check is enough.  Tracing
    ([verbose]) is diagnostic only and not modelled. *)
Definition backtracking_search {V} (p : problem V) : outcome V :=
  backtrack p (S (length (variables p))) ∅.

(** The variables still without a value; each level of the recursion
    removes one of them. *)
Definition unassigned {V} (p : problem V) (assignment : gmap string V)
  : list string :=
  filter (λ v, assignment !! v = None) (variables p).

(** The part of [assignment] that belongs to the variables [vars]. *)
Definition restrict {V} (vars : list string) (assignment : gmap string V)
  : gmap string V :=
  filter (λ kv, kv.1 ∈ vars) assignment.

End Solver.

(** ** Map colouring (MapColoringProblem.ipynb) *)

Module MapColoringProblem.

(** The fields of an instance: [neighbors] is set by the class itself,
    the rest by the constructor of the base class.  A domain is a
    reference to a list object. *)
Record instance := Instance {
  neighbors : gmap string (list string);
  base : CSPProblem.fields
}.

Definition variables (self : instance) : list string :=
  CSPProblem.variables (base self).
Definition domains (self : instance) : gmap string loc :=
  CSPProblem.domains (base self).

Definition __init__ (regions : list string)
    (neighbors : gmap string (list string)) (colors : loc)
  : M (gmap loc (list string)) instance :=
  domains ← dict_comprehension regions (λ region, list_copy colors) ∅;
  mret (Instance neighbors (CSPProblem.__init__ regions domains)).


(** What a call of [is_consistent] can reach: the problem object, the
    list objects, and the assignment dictionary passed in. *)
Record state := State {
  self : instance;
  heap : gmap loc (list string);
  assignment : gmap string string
}.

(** The regions listed under [variable], none when it has no entry. *)
Definition listed (self : instance) (variable : string) : list string :=
  default [] (neighbors self !! variable).

(** [self.neighbors.get(variable, [])] *)
Definition neighbors_get (variable : string) : M state (list string) :=
  gets (λ σ, listed (self σ) variable).

(** [neighbor in assignment] *)
Definition assignment_contains (neighbor : string) : M state bool :=
  gets (λ σ, bool_decide (is_Some (assignment σ !! neighbor))).

(** [assignment[neighbor]] *)
Definition assignment_getitem (neighbor : string) : M state string :=
  entry ← gets (λ σ, assignment σ !! neighbor);
  match entry with
  | Some c => mret c
  | None => raise (KeyError neighbor)
  end.

Definition is_consistent (variable value : string) : M state bool :=
  ns ← neighbors_get variable;
  r ← for_each ns (λ neighbor,
        present ← assignment_contains neighbor;
        clash ← (if present : bool
                 then c ← assignment_getitem neighbor;
                      mret (bool_decide (c = value))
                 else mret false);
        if clash : bool then mret (Some false) else mret None);
  mret (default true r).

(** The predicate as the solver calls it. *)
Definition accepts (self : instance) (heap : gmap loc (list string))
    (variable value : string) (assignment : gmap string string) : bool :=
  holds (is_consistent variable value) (State self heap assignment).

(** The colours in the list object a region's domain refers to. *)
Definition domain (self : instance) (heap : gmap loc (list string))
    (variable : string) : list string :=
  match domains self !! variable with
  | Some l => default [] (heap !! l)
  | None => []
  end.

Definition problem (self : instance) (heap : gmap loc (list string))
  : Solver.problem string :=
  Solver.Problem (variables self) (domain self heap) (accepts self heap).

(** Every adjacency is listed in both directions. *)
Definition symmetric (self : instance) : Prop :=
  ∀ v n, n ∈ listed self v → v ∈ listed self n.

End MapColoringProblem.

(** ** Course scheduling (CourseSchedulingProblem.ipynb) *)

Module CourseSchedulingProblem.

(** A value of a course: the tuple [(time, room)]. *)
Definition slot : Type := string * string.

Record instance := Instance {
  time_slots : list string;
  rooms : list string;
  conflicts : list (string * string);
  base : CSPProblem.fields
}.

Definition variables (self : instance) : list string :=
  CSPProblem.variables (base self).
Definition domains (self : instance) : gmap string loc :=
  CSPProblem.domains (base self).

(** [[(time, room) for time in time_slots for room in rooms]] *)
Definition possible_slots (time_slots rooms : list string) : list slot :=
  time ← time_slots; room ← rooms; [(time, room)].

Definition __init__ (courses time_slots rooms : list string)
    (conflicts : list (string * string))
  : M (gmap loc (list slot)) instance :=
  possible ← list_new (possible_slots time_slots rooms);
  domains ← dict_comprehension courses (λ course, list_copy possible) ∅;
  mret (Instance time_slots rooms conflicts
          (CSPProblem.__init__ courses domains)).

Record state := State {
  self : instance;
  heap : gmap loc (list slot);
  assignment : gmap string slot
}.

(** [assignment.items()].  The map does not record the order in which the
    dictionary lists its entries; the result of the loop below does not
    depend on it (lemma [course_items_order]). *)
Definition assignment_items : M state (list (string * slot)) :=
  gets (λ σ, map_to_list (assignment σ)).

(** [self.conflicts] *)
Definition self_conflicts : M state (list (string * string)) :=
  gets (λ σ, conflicts (self σ)).

Definition is_consistent (variable : string) (value : slot) : M state bool :=
  let '(time, room) := value in
  items ← assignment_items;
  r ← for_each items (λ '(assigned_course, assigned_slot),
        if bool_decide (assigned_course = variable) then mret None
        else
          let '(assigned_time, assigned_room) := assigned_slot in
          if bool_decide (time = assigned_time)
             && bool_decide (room = assigned_room)
          then mret (Some false)
          else if bool_decide (time = assigned_time) then
            pairs ← self_conflicts;
            for_each pairs (λ '(course1, course2),
              if (bool_decide (variable = course1)
                  && bool_decide (assigned_course = course2))
                 || (bool_decide (variable = course2)
                     && bool_decide (assigned_course = course1))
              then mret (Some false)
              else mret None)
          else mret None);
  mret (default true r).

(** What the inner loop does at one pair of the conflicts list: [Some false]
    for [return False], [None] for passing on to the next pair. *)
Definition pair_round (variable assigned_course : string)
    (pair : string * string) : option bool :=
  let '(course1, course2) := pair in
  if (bool_decide (variable = course1)
      && bool_decide (assigned_course = course2))
     || (bool_decide (variable = course2)
         && bool_decide (assigned_course = course1))
  then Some false else None.

(** What the outer loop does at one entry of the assignment. *)
Definition entry_round (self : instance) (variable : string) (value : slot)
    (entry : string * slot) : option bool :=
  let '(time, room) := value in
  let '(assigned_course, (assigned_time, assigned_room)) := entry in
  if bool_decide (assigned_course = variable) then None
  else if bool_decide (time = assigned_time)
          && bool_decide (room = assigned_room) then Some false
  else if bool_decide (time = assigned_time)
  then first_return (pair_round variable assigned_course) (conflicts self)
  else None.

(** The predicate as the solver calls it. *)
Definition accepts (self : instance) (heap : gmap loc (list slot))
    (variable : string) (value : slot) (assignment : gmap string slot) : bool :=
  holds (is_consistent variable value) (State self heap assignment).

Definition domain (self : instance) (heap : gmap loc (list slot))
    (variable : string) : list slot :=
  match domains self !! variable with
  | Some l => default [] (heap !! l)
  | None => []
  end.

Definition problem (self : instance) (heap : gmap loc (list slot))
  : Solver.problem slot :=
  Solver.Problem (variables self) (domain self heap) (accepts self heap).

(** The two courses form a pair of the conflicts list, in either order. *)
Definition in_conflict (self : instance) (c c' : string) : Prop :=
  (c, c') ∈ conflicts self ∨ (c', c) ∈ conflicts self.

End CourseSchedulingProblem.

(** ** Concrete problems *)

Module Scenario.

(** Three regions in a row and two colours; the caller's colour list is
    the list object at location 0. *)
Definition row_neighbors : gmap string (list string) :=
  <["A" := ["B"]]> (<["B" := ["A"; "C"]]> (<["C" := ["B"]]> ∅)).

Definition row : MapColoringProblem.instance :=
  MapColoringProblem.Instance row_neighbors
    (CSPProblem.Fields ["A"; "B"; "C"]
       (<["C" := 3]> (<["B" := 2]> (<["A" := 1]> ∅)))).

Definition row_heap : gmap loc (list string) :=
  <[3 := ["red"; "green"]]> (<[2 := ["red"; "green"]]>
    (<[1 := ["red"; "green"]]> (<[0 := ["red"; "green"]]> ∅))).

(** Two adjacent regions and one colour; the adjacency is listed under
    ["A"] only. *)
Definition one_way : MapColoringProblem.instance :=
  MapColoringProblem.Instance (<["A" := ["B"]]> ∅)
    (CSPProblem.Fields ["A"; "B"] (<["B" := 2]> (<["A" := 1]> ∅))).

Definition one_way_heap : gmap loc (list string) :=
  <[2 := ["red"]]> (<[1 := ["red"]]> (<[0 := ["red"]]> ∅)).




(** Two courses that must not meet at the same time, two times, one room. *)
Definition timetable : CourseSchedulingProblem.instance :=
  CourseSchedulingProblem.Instance ["08:00"; "10:00"] ["101"]
    [("math", "physics")]
    (CSPProblem.Fields ["math"; "physics"]
       (<["physics" := 2]> (<["math" := 1]> ∅))).

Definition timetable_heap : gmap loc (list CourseSchedulingProblem.slot) :=
  <[2 := [("08:00", "101"); ("10:00", "101")]]>
    (<[1 := [("08:00", "101"); ("10:00", "101")]]>
       (<[0 := [("08:00", "101"); ("10:00", "101")]]> ∅)).

(** The map of the notebook: five provinces of the central region and
    three colours. *)
Definition provinces : list string :=
  ["กรุงเทพมหานคร"; "นนทบุรี"; "ปทุมธานี"; "สมุทรปราการ"; "นครปฐม"].

Definition province_neighbors : gmap string (list string) :=
  <["กรุงเทพมหานคร" := ["นนทบุรี"; "ปทุมธานี"; "สมุทรปราการ"]]>
  (<["นนทบุรี" := ["กรุงเทพมหานคร"; "ปทุมธานี"; "นครปฐม"]]>
  (<["ปทุมธานี" := ["กรุงเทพมหานคร"; "นนทบุรี"]]>
  (<["สมุทรปราการ" := ["กรุงเทพมหานคร"; "นครปฐม"]]>
  (<["นครปฐม" := ["นนทบุรี"; "สมุทรปราการ"]]> ∅)))).

Definition colors : list string := ["แดง"; "เขียว"; "น้ำเงิน"].

(** The timetable of the notebook: five courses, four times, three rooms
    and two pairs of courses that share students. *)
Definition courses : list string :=
  ["คณิตศาสตร์"; "ฟิสิกส์"; "เคมี"; "ชีววิทยา"; "ประวัติศาสตร์"].

Definition time_slots : list string :=
  ["08:00-10:00"; "10:00-12:00"; "13:00-15:00"; "15:00-17:00"].

Definition rooms : list string := ["ห้อง101"; "ห้อง102"; "ห้อง201"].

Definition conflicts : list (string * string) :=
  [("คณิตศาสตร์", "ฟิสิกส์"); ("เคมี", "ชีววิทยา")].

(** [backtracking_search(Class(...), verbose=False)] on a heap that holds
    the caller's lists. *)
Definition solve_map (regions : list string)
    (neighbors : gmap string (list string)) (colors : list string)
  : result (Solver.outcome string) :=
  match MapColoringProblem.__init__ regions neighbors 0 (<[0 := colors]> ∅) with
  | (Ok self, h) =>
      Ok (Solver.backtracking_search (MapColoringProblem.problem self h))
  | (Raise e, _) => Raise e
  end.

Definition solve_courses (courses time_slots rooms : list string)
    (conflicts : list (string * string))
  : result (Solver.outcome CourseSchedulingProblem.slot) :=
  match CourseSchedulingProblem.__init__ courses time_slots rooms conflicts ∅
  with
  | (Ok self, h) =>
      Ok (Solver.backtracking_search (CourseSchedulingProblem.problem self h))
  | (Raise e, _) => Raise e
  end.

End Scenario.

(** ** The cells that run the examples *)

Module Notebook.

(** [print(s)]: one more line on the standard output. *)
Definition print (s : string) : M (list string) () := λ out,
  (Ok (), out ++ [s]).

(** The value [backtracking_search] hands back to the cell: a dictionary,
    given by its entries in the order they were stored, with values of the
    problem's value type; or any other object, [None], [False], a number, a
    string, a list, of which the cell observes the truth value only and
    which has no method [items]. *)
Inductive value (V : Type) :=
  | Dict (entries : list (string * V))
  | Object (truthy : bool).
Arguments Dict {V} entries.
Arguments Object {V} truthy.

(** [if solution:]; a dictionary is true when it has an entry. *)
Definition truth {V} (solution : value V) : bool :=
  match solution with
  | Dict [] => false
  | Dict (_ :: _) => true
  | Object truthy => truthy
  end.

(** [solution.items()] *)
Definition items {S V} (solution : value V) : M S (list (string * V)) :=
  match solution with
  | Dict entries => mret entries
  | Object _ => raise (AttributeError "items")
  end.

(** The line break of ["\n=== ... ==="]. *)
Definition newline : string := String (Ascii.ascii_of_nat 10) "".

(** The map colouring cell from [if solution:] on. *)
Definition show_coloring (solution : value string) : M (list string) () :=
  if truth solution then
    print "คำตอบการระบายสีแผนที่:";;
    entries ← items solution;
    for_each entries (λ '(province, color),
      print ("  " +:+ province +:+ ": " +:+ color);;
      mret (None : option ()));;
    mret ()
  else print "ไม่พบคำตอบ".

(** The course scheduling cell from [if solution:] on. *)
Definition show_timetable (solution : value CourseSchedulingProblem.slot)
  : M (list string) () :=
  if truth solution then
    print "ตารางเรียนที่จัดได้:";;
    entries ← items solution;
    for_each entries (λ '(course, slot),
      let '(time, room) := slot in
      print ("  " +:+ course +:+ ": " +:+ time +:+ " ที่ " +:+ room);;
      mret (None : option ()));;
    mret ()
  else print "ไม่สามารถจัดตารางเรียนได้".

(** The map colouring cell, with its data and the imported search as
    parameters; the caller's colour list is the list object at location
    0. *)
Definition map_coloring_cell
    (backtracking_search : MapColoringProblem.instance →
                           gmap loc (list string) → value string)
    (provinces : list string) (province_neighbors : gmap string (list string))
    (colors : list string) : M (list string) () :=
  print (newline +:+ "=== Map Coloring Problem ===");;
  match MapColoringProblem.__init__ provinces province_neighbors 0
          (<[0 := colors]> ∅) with
  | (Ok map_coloring, h) => show_coloring (backtracking_search map_coloring h)
  | (Raise e, _) => raise e
  end.

(** The course scheduling cell, likewise. *)
Definition course_scheduling_cell
    (backtracking_search : CourseSchedulingProblem.instance →
                           gmap loc (list CourseSchedulingProblem.slot) →
                           value CourseSchedulingProblem.slot)
    (courses time_slots rooms : list string)
    (conflicts : list (string * string)) : M (list string) () :=
  print (newline +:+ "=== Course Scheduling Problem ===");;
  match CourseSchedulingProblem.__init__ courses time_slots rooms conflicts ∅
  with
  | (Ok scheduling, h) => show_timetable (backtracking_search scheduling h)
  | (Raise e, _) => raise e
  end.

(** Modelled from the spec: the dictionary the search returns.  The search
    stores a variable when it selects it, so the entries come in the order
    of the variables, each variable once; the no-solution signal is
    [None]. *)
Fixpoint entries {V} (solution : gmap string V) (vars seen : list string)
  : list (string * V) :=
  match vars with
  | [] => []
  | v :: rest =>
      if decide (v ∈ seen) then entries solution rest seen
      else match solution !! v with
           | Some x => (v, x) :: entries solution rest (v :: seen)
           | None => entries solution rest seen
           end
  end.

Definition returned {V} (vars : list string) (o : Solver.outcome V)
  : value V :=
  match o with
  | Solver.Solution solution => Dict (entries solution vars [])
  | _ => Object false
  end.

Definition search_map (self : MapColoringProblem.instance)
    (h : gmap loc (list string)) : value string :=
  returned (MapColoringProblem.variables self)
    (Solver.backtracking_search (MapColoringProblem.problem self h)).

Definition search_courses (self : CourseSchedulingProblem.instance)
    (h : gmap loc (list CourseSchedulingProblem.slot))
  : value CourseSchedulingProblem.slot :=
  returned (CourseSchedulingProblem.variables self)
    (Solver.backtracking_search (CourseSchedulingProblem.problem self h)).

End Notebook.

(** * Properties *)

(** ** Computations that only read *)

Create HintDb readonly.

Lemma readonly_ret {S A} (a : A) : readonly (mret a : M S A).
Proof. by intros σ. Qed.

Lemma readonly_gets {S A} (f : S → A) : readonly (gets f).
Proof. by intros σ. Qed.

Lemma readonly_raise {S A} (e : exn) : readonly (raise e : M S A).
Proof. by intros σ. Qed.

Lemma readonly_bind {S A B} (m : M S A) (f : A → M S B) :
  readonly m → (∀ a, readonly (f a)) → readonly (m ≫= f).
Proof.
  intros Hm Hf σ. unfold mbind, M_bind.
  specialize (Hm σ). destruct (m σ) as [[a|e] σ']; simpl in *; subst.
  - apply Hf.
  - done.
Qed.

Lemma readonly_for_each {S A R} (xs : list A) (body : A → M S (option R)) :
  (∀ x, readonly (body x)) → readonly (for_each xs body).
Proof.
  intros Hbody. induction xs as [|x xs IH]; simpl.
  - apply readonly_ret.
  - apply readonly_bind; [done|]. intros [v|]; [apply readonly_ret | done].
Qed.

#[export] Hint Resolve readonly_ret readonly_gets readonly_raise
  readonly_bind readonly_for_each : readonly.

(** A loop whose body reads [g x] at every element and leaves the store
    alone returns what [first_return] finds. *)
Lemma for_each_reads {S A R} (g : A → option R) (xs : list A)
    (body : A → M S (option R)) (σ : S) :
  (∀ x, x ∈ xs → body x σ = (Ok (g x), σ)) →
  for_each xs body σ = (Ok (first_return g xs), σ).
Proof.
  induction xs as [|x xs IH]; intros Hbody; simpl; [done|].
  unfold mbind, M_bind. rewrite Hbody by left.
  destruct (g x); [done|]. apply IH. intros y Hy. apply Hbody. by right.
Qed.

Lemma first_return_None {A R} (g : A → option R) (xs : list A) :
  first_return g xs = None ↔ ∀ x, x ∈ xs → g x = None.
Proof.
  induction xs as [|x xs IH]; simpl.
  - split; [|done]. intros _ y Hy. by apply elem_of_nil in Hy.
  - destruct (g x) eqn:Hg.
    + split; [done|]. intros H. specialize (H x). rewrite Hg in H.
      by apply H; left.
    + rewrite IH. split.
      * intros H y [->|Hy]%elem_of_cons; auto.
      * intros H y Hy. apply H. by right.
Qed.

Lemma first_return_Some {A R} (g : A → option R) (xs : list A) (r : R) :
  first_return g xs = Some r → ∃ x, x ∈ xs ∧ g x = Some r.
Proof.
  induction xs as [|x xs IH]; simpl; [done|].
  destruct (g x) eqn:Hg.
  - intros [= ->]. exists x. split; [by left | done].
  - intros (y & Hy & Hgy)%IH. exists y. split; [by right | done].
Qed.

Lemma first_return_false {A} (g : A → option bool) (xs : list A) :
  (∀ x b, g x = Some b → b = false) →
  first_return g xs = Some false ↔ ∃ x, x ∈ xs ∧ g x = Some false.
Proof.
  intros Hg. split; [apply first_return_Some|].
  intros (x & Hx & Hgx). destruct (first_return g xs) as [b|] eqn:Hr.
  - apply first_return_Some in Hr as (y & _ & Hy). by rewrite (Hg y b Hy).
  - rewrite first_return_None in Hr. by rewrite (Hr x Hx) in Hgx.
Qed.

Lemma first_return_only_false {A} (g : A → option bool) (xs : list A) :
  (∀ x b, g x = Some b → b = false) →
  default true (first_return g xs) = false ↔ first_return g xs = Some false.
Proof.
  intros Hg. destruct (first_return g xs) as [b|] eqn:Hr; simpl; [|done].
  apply first_return_Some in Hr as (y & _ & Hy). rewrite (Hg y b Hy).
  done.
Qed.

(** A loop that can only [return False] gives the same result in whatever
    order it visits the elements. *)
Lemma loop_order_irrelevant {A} (g : A → option bool) (xs ys : list A) :
  (∀ x b, g x = Some b → b = false) → xs ≡ₚ ys →
  default true (first_return g xs) = default true (first_return g ys).
Proof.
  intros Hg Hperm.
  pose proof (first_return_only_false g xs Hg) as Hxs.
  pose proof (first_return_only_false g ys Hg) as Hys.
  rewrite first_return_false in Hxs, Hys by done.
  assert (Hiff : (∃ x, x ∈ xs ∧ g x = Some false)
                 ↔ (∃ x, x ∈ ys ∧ g x = Some false)).
  { by setoid_rewrite Hperm. }
  destruct (default true (first_return g xs)),
    (default true (first_return g ys)); try done.
  - by apply Hxs, Hiff, Hys.
  - symmetry. by apply Hys, Hiff, Hxs.
Qed.

Lemma first_return_ext {A R} (g g' : A → option R) (xs : list A) :
  (∀ x, x ∈ xs → g x = g' x) → first_return g xs = first_return g' xs.
Proof.
  induction xs as [|x xs IH]; intros Hext; simpl; [done|].
  rewrite (Hext x) by left. rewrite IH; [done|].
  intros y Hy. apply Hext. by right.
Qed.

(** ** Map colouring *)

Section MapColoringFacts.
Import MapColoringProblem.

(** What one round of the loop over the neighbours does. *)
Lemma neighbor_round (σ : state) (value neighbor : string) :
  (present ← assignment_contains neighbor;
   clash ← (if present : bool
            then c ← assignment_getitem neighbor;
                 mret (bool_decide (c = value))
            else mret false);
   if clash : bool then mret (Some false) else mret None) σ
  = (Ok (if bool_decide (assignment σ !! neighbor = Some value)
         then Some false else None), σ).
Proof.
  unfold assignment_contains, assignment_getitem, mbind, M_bind, gets.
  destruct (assignment σ !! neighbor) as [c|] eqn:Hc; simpl.
  - rewrite Hc. unfold mret, M_ret.
    destruct (decide (c = value)) as [->|Hne].
    + by rewrite !bool_decide_eq_true_2.
    + rewrite (bool_decide_eq_false_2 (c = value)) by done.
      rewrite bool_decide_eq_false_2; [done|]. by intros [= ->].
  - done.
Qed.

(** The call returns, leaves the store alone, and answers [False] exactly
    when the loop finds a listed neighbour holding [value]. *)
Lemma is_consistent_run (σ : state) (variable value : string) :
  is_consistent variable value σ
  = (Ok (default true
           (first_return
              (λ n, if bool_decide (assignment σ !! n = Some value)
                    then Some false else None)
              (listed (self σ) variable))), σ).
Proof.
  unfold is_consistent, neighbors_get.
  unfold mbind at 1, M_bind at 1, gets. simpl.
  unfold mbind at 1, M_bind at 1.
  erewrite for_each_reads; [done|].
  intros n _. apply neighbor_round.
Qed.

Lemma neighbors_loop_true (A : gmap string string) (value : string)
    (ns : list string) :
  default true
    (first_return
       (λ n, if bool_decide (A !! n = Some value) then Some false else None)
       ns) = true
  ↔ ∀ n, n ∈ ns → A !! n ≠ Some value.
Proof.
  destruct (first_return _ ns) as [b|] eqn:Hr; simpl.
  - apply first_return_Some in Hr as (n & Hn & Hg).
    case_bool_decide as Hc; [|done]. injection Hg as <-.
    split; [done|]. intros H. by destruct (H n Hn).
  - split; [|done]. intros _ n Hn.
    rewrite first_return_None in Hr. specialize (Hr n Hn). simpl in Hr.
    by case_bool_decide.
Qed.

Lemma map_accepts_iff (self : instance) (h : gmap loc (list string))
    (A : gmap string string) (v x : string) :
  accepts self h v x A = true ↔ ∀ n, n ∈ listed self v → A !! n ≠ Some x.
Proof.
  unfold accepts, holds. rewrite is_consistent_run. simpl.
  apply neighbors_loop_true.
Qed.

(** With a symmetric [neighbors] mapping, accepted pairs keep distinct
    adjacent regions apart. *)
Lemma map_built_proper (self : instance) (h : gmap loc (list string))
    (A : gmap string string) :
  symmetric self → built (accepts self h) A →
  ∀ u n c c', u ≠ n → n ∈ listed self u →
    A !! u = Some c → A !! n = Some c' → c ≠ c'.
Proof.
  intros Hsym Hbuilt. induction Hbuilt as [|A v x _ IH Hacc].
  - intros u n c c' _ _ Hu. by rewrite lookup_empty in Hu.
  - rewrite map_accepts_iff in Hacc.
    intros u n c c' Hne Hn Hu Hn'.
    destruct (decide (v = u)) as [->|Hvu].
    + rewrite lookup_insert_eq in Hu. injection Hu as <-.
      rewrite lookup_insert_ne in Hn' by done.
      intros <-. by apply (Hacc n Hn).
    + rewrite lookup_insert_ne in Hu by done.
      destruct (decide (v = n)) as [->|Hvn].
      * rewrite lookup_insert_eq in Hn'. injection Hn' as ->.
        intros ->. by apply (Hacc u (Hsym _ _ Hn)).
      * rewrite lookup_insert_ne in Hn' by done. by apply (IH u n).
Qed.

End MapColoringFacts.

(** ** Course scheduling *)

Section CourseSchedulingFacts.
Import CourseSchedulingProblem.

Lemma pair_round_false (c c' : string) (pair : string * string) (b : bool) :
  pair_round c c' pair = Some b → b = false.
Proof.
  destruct pair as [c1 c2]. unfold pair_round.
  by destruct (_ || _); intros [= <-].
Qed.

Lemma pair_round_spec (c c' : string) (pair : string * string) :
  pair_round c c' pair = Some false ↔ pair = (c, c') ∨ pair = (c', c).
Proof.
  destruct pair as [c1 c2]. unfold pair_round.
  destruct (_ || _) eqn:Hb.
  - split; [intros _|done].
    apply orb_true_iff in Hb as [Hb|Hb]; apply andb_true_iff in Hb as [H1 H2];
      apply bool_decide_eq_true in H1, H2; subst; auto.
  - split; [done|]. intros Hp.
    apply orb_false_iff in Hb as [H1 H2].
    destruct Hp as [[= -> ->]|[= -> ->]].
    + by rewrite !bool_decide_eq_true_2 in H1.
    + by rewrite !bool_decide_eq_true_2 in H2.
Qed.

Lemma conflicts_loop_spec (self : instance) (c c' : string) :
  first_return (pair_round c c') (conflicts self) = Some false
  ↔ in_conflict self c c'.
Proof.
  rewrite first_return_false by apply pair_round_false.
  unfold in_conflict. split.
  - intros (pair & Hin & [->| ->]%pair_round_spec); auto.
  - intros [H|H]; eexists; (split; [exact H|]); apply pair_round_spec; auto.
Qed.

Lemma entry_round_false (self : instance) (c : string) (value : slot)
    (entry : string * slot) (b : bool) :
  entry_round self c value entry = Some b → b = false.
Proof.
  destruct value as [t r], entry as [c' [t' r']]. unfold entry_round.
  repeat case_match; try done.
  - by intros [= <-].
  - intros (pair & _ & Hp)%first_return_Some. by eapply pair_round_false.
Qed.

Lemma entry_round_spec (self : instance) (c t r c' t' r' : string) :
  entry_round self c (t, r) (c', (t', r')) = Some false
  ↔ c' ≠ c ∧ t' = t ∧ (r' = r ∨ in_conflict self c c').
Proof.
  unfold entry_round.
  case_bool_decide as Hc; [naive_solver|].
  destruct (decide (t = t')) as [<-|Ht].
  - rewrite (bool_decide_eq_true_2 (t = t)) by done. simpl.
    case_bool_decide as Hr.
    + naive_solver.
    + rewrite conflicts_loop_spec. naive_solver.
  - rewrite (bool_decide_eq_false_2 (t = t')) by done. simpl. naive_solver.
Qed.

(** What one round of the loop over the assignment does. *)
Lemma conflicts_loop_run (σ : state) (c c' : string) :
  (pairs ← self_conflicts;
   for_each pairs (λ '(course1, course2),
     if (bool_decide (c = course1) && bool_decide (c' = course2))
        || (bool_decide (c = course2) && bool_decide (c' = course1))
     then mret (Some false)
     else mret None)) σ
  = (Ok (first_return (pair_round c c') (conflicts (self σ))), σ).
Proof.
  unfold mbind at 1, M_bind at 1, self_conflicts, gets.
  apply for_each_reads. intros [c1 c2] _. unfold pair_round.
  by destruct (_ || _).
Qed.

Lemma is_consistent_run_course (σ : state) (variable : string) (value : slot) :
  is_consistent variable value σ
  = (Ok (default true
           (first_return (entry_round (self σ) variable value)
              (map_to_list (assignment σ)))), σ).
Proof.
  destruct value as [time room]. unfold is_consistent, assignment_items.
  unfold mbind at 1, M_bind at 1, gets.
  unfold mbind at 1, M_bind at 1.
  erewrite for_each_reads; [done|].
  intros [c' [t' r']] _. unfold entry_round.
  case_bool_decide; [done|].
  destruct (_ && _); [done|].
  case_bool_decide; [|done].
  apply conflicts_loop_run.
Qed.

Lemma course_items_order (self : instance) (A : gmap string slot)
    (c : string) (value : slot) (items : list (string * slot)) :
  items ≡ₚ map_to_list A →
  default true (first_return (entry_round self c value) items)
  = default true (first_return (entry_round self c value) (map_to_list A)).
Proof. apply loop_order_irrelevant, entry_round_false. Qed.

(** The call answers [False] exactly when another assigned course clashes. *)
Lemma course_loop_false (self : instance) (A : gmap string slot)
    (c t r : string) :
  default true (first_return (entry_round self c (t, r)) (map_to_list A))
  = false
  ↔ ∃ c' t' r', c' ≠ c ∧ A !! c' = Some (t', r') ∧ t' = t
                ∧ (r' = r ∨ in_conflict self c c').
Proof.
  rewrite first_return_only_false by apply entry_round_false.
  rewrite first_return_false by apply entry_round_false.
  split.
  - intros ([c' [t' r']] & Hin & Hround).
    apply elem_of_map_to_list in Hin. apply entry_round_spec in Hround.
    naive_solver.
  - intros (c' & t' & r' & Hne & Hin & Ht & Hclash).
    exists (c', (t', r')). split; [by apply elem_of_map_to_list|].
    by apply entry_round_spec.
Qed.

Lemma course_accepts_false (self : instance) (h : gmap loc (list slot))
    (A : gmap string slot) (c t r : string) :
  accepts self h c (t, r) A = false
  ↔ ∃ c' t' r', c' ≠ c ∧ A !! c' = Some (t', r') ∧ t' = t
                ∧ (r' = r ∨ in_conflict self c c').
Proof.
  unfold accepts, holds. rewrite is_consistent_run_course. simpl.
  apply course_loop_false.
Qed.

(** The loop reads the conflicts list and the entries of the other
    courses only. *)
Lemma course_loop_ext (self self' : instance) (A A' : gmap string slot)
    (c t r : string) :
  conflicts self = conflicts self' →
  (∀ c', c' ≠ c → A !! c' = A' !! c') →
  default true (first_return (entry_round self c (t, r)) (map_to_list A))
  = default true (first_return (entry_round self' c (t, r)) (map_to_list A')).
Proof.
  intros Hconf Hsame.
  pose proof (course_loop_false self A c t r) as H.
  pose proof (course_loop_false self' A' c t r) as H'.
  assert (Hiff :
    (∃ c' t' r', c' ≠ c ∧ A !! c' = Some (t', r') ∧ t' = t
                 ∧ (r' = r ∨ in_conflict self c c'))
    ↔ (∃ c' t' r', c' ≠ c ∧ A' !! c' = Some (t', r') ∧ t' = t
                   ∧ (r' = r ∨ in_conflict self' c c'))).
  { unfold in_conflict. rewrite Hconf.
    split; intros (c' & t' & r' & Hne & HA & Hrest);
      exists c', t', r'; (split; [done|]); (split; [|done]).
    - etrans; [symmetry; by apply Hsame|done].
    - etrans; [by apply Hsame|done]. }
  destruct (default true (first_return (entry_round self _ _) _)),
    (default true (first_return (entry_round self' _ _) _)); try done.
  - by apply H, Hiff, H'.
  - symmetry. by apply H', Hiff, H.
Qed.

Lemma course_accepts_true (self : instance) (h : gmap loc (list slot))
    (A : gmap string slot) (c t r c' t' r' : string) :
  accepts self h c (t, r) A = true →
  c' ≠ c → A !! c' = Some (t', r') → t' = t →
  r' ≠ r ∧ ¬ in_conflict self c c'.
Proof.
  intros Hacc Hne HA Ht.
  assert (Hno : accepts self h c (t, r) A ≠ false) by by rewrite Hacc.
  rewrite course_accepts_false in Hno.
  split.
  - intros Hr. apply Hno. exists c', t', r'. auto.
  - intros Hc. apply Hno. exists c', t', r'. auto.
Qed.

Lemma in_conflict_sym (self : instance) (c c' : string) :
  in_conflict self c c' → in_conflict self c' c.
Proof. unfold in_conflict. tauto. Qed.

(** Accepted pairs keep two courses that meet at the same time in
    different rooms and out of the conflicts list. *)
Lemma course_built_proper (self : instance) (h : gmap loc (list slot))
    (A : gmap string slot) :
  built (accepts self h) A →
  ∀ c1 c2 t1 r1 t2 r2, c1 ≠ c2 →
    A !! c1 = Some (t1, r1) → A !! c2 = Some (t2, r2) → t1 = t2 →
    r1 ≠ r2 ∧ ¬ in_conflict self c1 c2.
Proof.
  intros Hbuilt. induction Hbuilt as [|A v [t r] _ IH Hacc].
  - intros c1 c2 t1 r1 t2 r2 _ H1. by rewrite lookup_empty in H1.
  - intros c1 c2 t1 r1 t2 r2 Hne H1 H2 Ht.
    destruct (decide (v = c1)) as [->|Hv1].
    + rewrite lookup_insert_eq in H1. injection H1 as -> ->.
      rewrite lookup_insert_ne in H2 by done.
      destruct (course_accepts_true self h A c1 t1 r1 c2 t2 r2) as [Hr Hc];
        auto.
    + rewrite lookup_insert_ne in H1 by done.
      destruct (decide (v = c2)) as [->|Hv2].
      * rewrite lookup_insert_eq in H2. injection H2 as -> ->.
        destruct (course_accepts_true self h A c2 t2 r2 c1 t1 r1) as [Hr Hc];
          auto.
        split; [auto|]. intros Hc'. by apply Hc, in_conflict_sym.
      * rewrite lookup_insert_ne in H2 by done. by apply (IH c1 c2 t1 r1 t2 r2).
Qed.

End CourseSchedulingFacts.

(** ** The solver *)

Section SolverFacts.
Import Solver.
Context {V : Type} (p : problem V).

Lemma select_unassigned_None (A : gmap string V) :
  select_unassigned p A = None ↔ ∀ v, v ∈ variables p → is_Some (A !! v).
Proof.
  unfold select_unassigned. rewrite fmap_None, list_find_None, Forall_forall.
  split; intros H v Hv; specialize (H v Hv).
  - by apply not_eq_None_Some.
  - by apply not_eq_None_Some.
Qed.

Lemma select_unassigned_Some (A : gmap string V) (var : string) :
  select_unassigned p A = Some var →
  ∃ i, variables p !! i = Some var ∧ A !! var = None
       ∧ ∀ j y, variables p !! j = Some y → j < i → is_Some (A !! y).
Proof.
  unfold select_unassigned. intros ([i v] & Hfind & ->)%fmap_Some.
  apply list_find_Some in Hfind as (Hi & Hnone & Hbefore).
  exists i. split_and!; [done..|].
  intros j y Hj Hlt. apply not_eq_None_Some. by eapply Hbefore.
Qed.

Lemma try_values_Solution (recurse : gmap string V → outcome V)
    (var : string) (values : list V) (A sol : gmap string V) :
  try_values p recurse var values A = Solution sol →
  ∃ value, value ∈ values ∧ is_consistent p var value A = true
           ∧ recurse (<[var := value]> A) = Solution sol.
Proof.
  induction values as [|value rest IH]; simpl; [done|].
  destruct (is_consistent p var value A) eqn:Hok.
  - destruct (recurse (<[var := value]> A)) as [s| |] eqn:Hrec.
    + intros [= ->]. exists value. split_and!; [by left|done..].
    + intros (value' & Hin & H)%IH. exists value'. split; [by right|done].
    + done.
  - intros (value' & Hin & H)%IH. exists value'. split; [by right|done].
Qed.

Lemma try_values_returns (recurse : gmap string V → outcome V)
    (var : string) (values : list V) (A : gmap string V) :
  (∀ value, recurse (<[var := value]> A) ≠ OutOfFuel) →
  try_values p recurse var values A ≠ OutOfFuel.
Proof.
  intros Hrec. induction values as [|value rest IH]; simpl; [done|].
  destruct (is_consistent p var value A); [|done].
  specialize (Hrec value).
  by destruct (recurse (<[var := value]> A)).
Qed.

(** Giving a value to a variable that had none shortens the list of the
    variables without a value. *)
Lemma unassigned_insert (A : gmap string V) (var : string) (value : V) :
  var ∈ variables p → A !! var = None →
  length (unassigned p (<[var := value]> A)) < length (unassigned p A).
Proof.
  unfold unassigned. intros Hin Hnone.
  induction (variables p) as [|v vs IH]; [by apply elem_of_nil in Hin|].
  assert (Hle : ∀ l : list string,
    (length (filter (λ v, <[var := value]> A !! v = None) l)
     ≤ length (filter (λ v, A !! v = None) l))%nat).
  { clear. intros l. induction l as [|w l IHl]; [done|].
    rewrite !filter_cons. destruct (decide (var = w)) as [->|Hne].
    - rewrite lookup_insert_eq. repeat case_decide; simpl; try done; lia.
    - rewrite lookup_insert_ne by done. case_decide; simpl; lia. }
  rewrite !filter_cons. destruct (decide (var = v)) as [->|Hne].
  - rewrite lookup_insert_eq, Hnone.
    rewrite decide_False by done.
    rewrite decide_True by done.
    simpl. specialize (Hle vs). lia.
  - rewrite lookup_insert_ne by done.
    apply elem_of_cons in Hin as [?|Hin]; [done|].
    specialize (IH Hin). case_decide; simpl; lia.
Qed.

(** The recursion never runs out of fuel when it starts with more fuel
    than there are variables without a value. *)
Lemma backtrack_returns (fuel : nat) (A : gmap string V) :
  length (unassigned p A) < fuel → backtrack p fuel A ≠ OutOfFuel.
Proof.
  revert A. induction fuel as [|fuel IH]; intros A Hfuel; [lia|]. simpl.
  destruct (select_unassigned p A) as [var|] eqn:Hsel; [|done].
  apply select_unassigned_Some in Hsel as (i & Hi & Hnone & _).
  apply try_values_returns. intros value. apply IH.
  pose proof (unassigned_insert A var value
                (list_elem_of_lookup_2 _ _ _ Hi) Hnone).
  lia.
Qed.

Lemma restrict_assigned (A sol : gmap string V) (vars : list string) :
  A ⊆ sol → (∀ v, is_Some (A !! v) ↔ v ∈ vars) → restrict vars sol = A.
Proof.
  intros Hsub Hdom. apply map_eq. intros u. unfold restrict.
  destruct (A !! u) as [x|] eqn:HA.
  - apply map_lookup_filter_Some. split.
    + by eapply lookup_weaken.
    + simpl. apply Hdom. by rewrite HA.
  - apply map_lookup_filter_None. right. intros x _ Hu. simpl in Hu.
    apply Hdom in Hu. rewrite HA in Hu. by destruct Hu.
Qed.

(** The invariant of the recursion: the assigned variables are an initial
    segment of the variable order, and what is added later was accepted
    against the segment before it. *)
Lemma backtrack_sound (fuel : nat) (A sol : gmap string V) (k : nat) :
  (∀ v, is_Some (A !! v) ↔ v ∈ take k (variables p)) →
  backtrack p fuel A = Solution sol →
  A ⊆ sol
  ∧ (∀ v, is_Some (sol !! v) ↔ is_Some (A !! v) ∨ v ∈ variables p)
  ∧ ∀ i v x, variables p !! i = Some v → v ∉ take i (variables p) →
      A !! v = None → sol !! v = Some x →
      x ∈ domain p v
      ∧ is_consistent p v x (restrict (take i (variables p)) sol) = true.
Proof.
  revert A k. induction fuel as [|fuel IH]; intros A k Hseg; [done|]. simpl.
  destruct (select_unassigned p A) as [var|] eqn:Hsel.
  - apply select_unassigned_Some in Hsel as (i0 & Hi0 & Hnone & Hbefore).
    intros (value & Hin & Hok & Hrec)%try_values_Solution.
    assert (Hseg0 : ∀ v, is_Some (A !! v) ↔ v ∈ take i0 (variables p)).
    { intros v. split.
      - intros Hv. apply Hseg in Hv as Hk.
        apply elem_of_take in Hk as (j & Hj & Hjk).
        apply elem_of_take. exists j. split; [done|].
        destruct (decide (j < i0)) as [|Hge]; [done|].
        assert (Hvar : var ∈ take k (variables p)).
        { apply elem_of_take. exists i0. split; [done|lia]. }
        apply Hseg in Hvar. rewrite Hnone in Hvar. by destruct Hvar.
      - intros (j & Hj & Hlt)%elem_of_take. by eapply Hbefore. }
    assert (Hfirst : var ∉ take i0 (variables p)).
    { intros Hvar%Hseg0. rewrite Hnone in Hvar. by destruct Hvar. }
    destruct (IH (<[var := value]> A) (S i0)) as (Hsub & Hdom & Hacc);
      [|done|].
    { intros v. rewrite (take_S_r _ _ _ Hi0), elem_of_app, list_elem_of_singleton.
      rewrite <- Hseg0.
      destruct (decide (var = v)) as [->|Hne].
      - rewrite lookup_insert_eq. naive_solver.
      - rewrite lookup_insert_ne by done. naive_solver. }
    assert (HsubA : A ⊆ sol).
    { etrans; [by apply insert_subseteq|done]. }
    split_and!; [done| |].
    + intros v. rewrite Hdom.
      destruct (decide (var = v)) as [->|Hne].
      * rewrite lookup_insert_eq.
        pose proof (list_elem_of_lookup_2 _ _ _ Hi0). naive_solver.
      * by rewrite lookup_insert_ne.
    + intros i v x Hi Hfst HAv Hsol.
      destruct (decide (var = v)) as [<-|Hne].
      * assert (i = i0) as ->.
        { destruct (decide (i < i0)); [|destruct (decide (i0 < i)); [|lia]].
          - destruct Hfirst. apply elem_of_take. eauto.
          - destruct Hfst. apply elem_of_take. eauto. }
        assert (x = value) as ->.
        { eapply lookup_weaken in Hsub; [|apply lookup_insert_eq].
          congruence. }
        split; [done|]. by rewrite (restrict_assigned A sol).
      * apply Hacc; [done..| |done]. by rewrite lookup_insert_ne.
  - intros [= <-]. split_and!; [done| |].
    + intros v. rewrite select_unassigned_None in Hsel. naive_solver.
    + intros i v x _ _ Hnone Hsome. congruence.
Qed.

(** What the search stores was accepted when it was stored. *)
Lemma backtrack_built (fuel : nat) (A sol : gmap string V) :
  built (is_consistent p) A → backtrack p fuel A = Solution sol →
  built (is_consistent p) sol.
Proof.
  revert A. induction fuel as [|fuel IH]; intros A HA; [done|]. simpl.
  destruct (select_unassigned p A) as [var|].
  - intros (value & _ & Hok & Hrec)%try_values_Solution.
    eapply IH; [|done]. by constructor.
  - by intros [= <-].
Qed.

Lemma backtracking_search_returns : backtracking_search p ≠ OutOfFuel.
Proof.
  apply backtrack_returns. unfold unassigned.
  apply Nat.lt_succ_r, length_filter.
Qed.

Lemma backtracking_search_sound (sol : gmap string V) :
  backtracking_search p = Solution sol →
  (∀ v, is_Some (sol !! v) ↔ v ∈ variables p)
  ∧ ∀ i v x, variables p !! i = Some v → v ∉ take i (variables p) →
      sol !! v = Some x →
      x ∈ domain p v
      ∧ is_consistent p v x (restrict (take i (variables p)) sol) = true.
Proof.
  intros Hrun.
  destruct (backtrack_sound (S (length (variables p))) ∅ sol 0)
    as (_ & Hdom & Hacc); [|exact Hrun|].
  { intros v. rewrite lookup_empty, take_0. split.
    - by intros [? ?].
    - intros H. by apply elem_of_nil in H. }
  split.
  - intros v. rewrite Hdom, lookup_empty. split; [|auto].
    by intros [[? ?]|?].
  - intros i v x Hi Hfst Hsol. by apply (Hacc i v x).
Qed.

Lemma backtracking_search_built (sol : gmap string V) :
  backtracking_search p = Solution sol → built (is_consistent p) sol.
Proof. apply backtrack_built. constructor. Qed.

(** A variable without candidates leaves no solution to return. *)
Lemma empty_domain_no_solution (v : string) :
  v ∈ variables p → domain p v = [] → backtracking_search p = NoSolution.
Proof.
  intros Hv Hdom. pose proof backtracking_search_returns as Hret.
  destruct (backtracking_search p) as [sol| |] eqn:Hrun; [|done..].
  apply backtracking_search_sound in Hrun as [Hall Hacc].
  destruct (proj2 (Hall v) Hv) as [x Hx].
  assert (∃ i, variables p !! i = Some v ∧ v ∉ take i (variables p))
    as (i & Hi & Hfst).
  { clear -Hv. induction (variables p) as [|w ws IH];
      [by apply elem_of_nil in Hv|].
    destruct (decide (w = v)) as [->|Hne].
    - exists 0. split; [done|]. simpl. apply not_elem_of_nil.
    - apply elem_of_cons in Hv as [?|Hv]; [done|].
      destruct (IH Hv) as (i & Hi & Hfst). exists (S i). split; [done|].
      simpl. apply not_elem_of_cons. auto. }
  destruct (Hacc i v x Hi Hfst Hx) as [Hin _].
  rewrite Hdom in Hin. by apply elem_of_nil in Hin.
Qed.

End SolverFacts.

(** ** The constructors *)

Section ConstructorFacts.
Context {V : Type}.

Lemma list_copy_run (h : gmap loc (list V)) (src : loc) (xs : list V) :
  h !! src = Some xs →
  list_copy src h = (Ok (fresh (dom h)), <[fresh (dom h) := xs]> h).
Proof. intros Hsrc. unfold list_copy. by rewrite Hsrc. Qed.

Lemma fresh_unused (h : gmap loc (list V)) : h !! fresh (dom h) = None.
Proof. apply not_elem_of_dom. apply is_fresh. Qed.

(** The dictionary comprehension [{key: src.copy() for key in keys}],
    continued from the entries [d], whose references are in use. *)
Lemma copies_comprehension (keys : list string) (src : loc) (xs : list V)
    (d : gmap string loc) (h : gmap loc (list V)) :
  h !! src = Some xs →
  (∀ k l, d !! k = Some l → is_Some (h !! l)) →
  ∃ d' h',
    dict_comprehension keys (λ _, list_copy src) d h = (Ok d', h')
    ∧ h ⊆ h'
    ∧ (∀ k l, d' !! k = Some l → is_Some (h' !! l))
    ∧ (∀ k, k ∈ keys →
         ∃ l, d' !! k = Some l ∧ h' !! l = Some xs ∧ h !! l = None)
    ∧ (∀ k, k ∉ keys → d' !! k = d !! k)
    ∧ (∀ k k' l, k ∈ keys → k ≠ k' → d' !! k = Some l → d' !! k' ≠ Some l).
Proof.
  revert d h. induction keys as [|key rest IH]; intros d h Hsrc Hused.
  - exists d, h. split_and!; try done.
    + intros k Hk. by apply elem_of_nil in Hk.
    + intros k k' l Hk. by apply elem_of_nil in Hk.
  - simpl. unfold mbind at 1, M_bind at 1. rewrite (list_copy_run h src xs Hsrc).
    pose proof (fresh_unused h) as Hfresh.
    set (l0 := fresh (dom h)) in *.
    assert (Hext : h ⊆ <[l0 := xs]> h) by by apply insert_subseteq.
    destruct (IH (<[key := l0]> d) (<[l0 := xs]> h))
      as (d' & h' & Hrun & Hsub & Hused' & Hnew & Hold & Hinj).
    { rewrite lookup_insert_ne; [done|]. intros ->. congruence. }
    { intros k l. destruct (decide (key = k)) as [->|Hne].
      - rewrite lookup_insert_eq. intros [= <-]. by rewrite lookup_insert_eq.
      - rewrite lookup_insert_ne by done. intros Hk%Hused.
        destruct Hk as [ys Hys]. exists ys. by eapply lookup_weaken. }
    assert (Hkey : key ∉ rest → d' !! key = Some l0).
    { intros Hk. by rewrite (Hold key Hk), lookup_insert_eq. }
    assert (Hl0 : h' !! l0 = Some xs).
    { eapply lookup_weaken; [apply lookup_insert_eq|done]. }
    exists d', h'. split_and!; [done|by etrans|done| | |].
    + intros k Hk. destruct (decide (k ∈ rest)) as [Hin|Hout].
      * destruct (Hnew k Hin) as (l & Hd & Hh' & Hh1). exists l.
        split_and!; [done..|].
        destruct (h !! l) as [ys|] eqn:Hl; [|done].
        eapply lookup_weaken in Hl; [|exact Hext]. congruence.
      * apply elem_of_cons in Hk as [->|?]; [|done]. exists l0. auto.
    + intros k Hk. apply not_elem_of_cons in Hk as [Hne Hout].
      rewrite (Hold k Hout). by rewrite lookup_insert_ne.
    + intros k k' l Hk Hne Hd Hd'.
      destruct (decide (k ∈ rest)) as [Hin|Hout]; [by eapply Hinj|].
      apply elem_of_cons in Hk as [->|?]; [|done].
      rewrite (Hkey Hout) in Hd. injection Hd as <-.
      destruct (decide (k' ∈ rest)) as [Hin'|Hout'].
      * destruct (Hnew k' Hin') as (l & Hl & _ & Hl1).
        rewrite Hd' in Hl. injection Hl as <-.
        by rewrite lookup_insert_eq in Hl1.
      * rewrite (Hold k' Hout'), lookup_insert_ne in Hd' by done.
        apply Hused in Hd'. rewrite Hfresh in Hd'. by destruct Hd'.
Qed.

(** From the empty dictionary the comprehension yields fresh copies. *)
Lemma copies_from_empty (keys : list string) (src : loc) (xs : list V)
    (h : gmap loc (list V)) :
  h !! src = Some xs →
  ∃ d' h',
    dict_comprehension keys (λ _, list_copy src) ∅ h = (Ok d', h')
    ∧ h ⊆ h' ∧ fresh_copies h h' d' keys xs.
Proof.
  intros Hsrc.
  destruct (copies_comprehension keys src xs ∅ h Hsrc)
    as (d' & h' & Hrun & Hsub & _ & Hnew & Hold & Hinj).
  { intros k l Hk. by rewrite lookup_empty in Hk. }
  exists d', h'. do 2 (split; [done|]). split; [done|]. split.
  - intros k Hk. by rewrite (Hold k Hk), lookup_empty.
  - intros k k' l Hne Hd. destruct (decide (k ∈ keys)) as [Hin|Hout].
    + by eapply Hinj.
    + by rewrite (Hold k Hout), lookup_empty in Hd.
Qed.

End ConstructorFacts.

Section MapColoringConstructor.
Import MapColoringProblem.

Lemma map_init_run (regions : list string)
    (neighbors0 : gmap string (list string)) (colors : loc)
    (cs : list string) (h : gmap loc (list string)) :
  h !! colors = Some cs →
  ∃ self h',
    __init__ regions neighbors0 colors h = (Ok self, h')
    ∧ neighbors self = neighbors0
    ∧ variables self = regions
    ∧ h ⊆ h'
    ∧ fresh_copies h h' (domains self) regions cs.
Proof.
  intros Hcs. unfold __init__, mbind, M_bind.
  destruct (copies_from_empty regions colors cs h Hcs)
    as (d' & h' & -> & Hsub & Hfresh).
  by eexists _, h'.
Qed.

(** A domain made of fresh copies holds the copied elements, whatever is
    stored afterwards in a list object that existed before. *)
Lemma map_domain_fixed (self : instance) (h h' : gmap loc (list string))
    (regions cs : list string) (l0 : loc) (ys : list string) (r : string) :
  fresh_copies h h' (domains self) regions cs →
  is_Some (h !! l0) → r ∈ regions →
  domain self h' r = cs ∧ domain self (<[l0 := ys]> h') r = cs.
Proof.
  intros (Hnew & _ & _) Hl0 Hr. destruct (Hnew r Hr) as (l & Hd & Hh' & Hh).
  unfold domain. rewrite Hd. split; [by rewrite Hh'|].
  rewrite lookup_insert_ne; [by rewrite Hh'|].
  intros ->. rewrite Hh in Hl0. by destruct Hl0.
Qed.

End MapColoringConstructor.

Section CourseSchedulingConstructor.
Import CourseSchedulingProblem.

Lemma possible_slots_cons (t : string) (ts rs : list string) :
  possible_slots (t :: ts) rs = ((t ,.) <$> rs) ++ possible_slots ts rs.
Proof.
  unfold possible_slots. rewrite bind_cons.
  assert (Hrow : (rs ≫= λ room, [(t, room)]) = (t ,.) <$> rs).
  { induction rs as [|r rs IH]; [done|]. by rewrite bind_cons, IH. }
  by rewrite Hrow.
Qed.

Lemma possible_slots_length (ts rs : list string) :
  length (possible_slots ts rs) = length ts * length rs.
Proof.
  induction ts as [|t ts IH]; [done|].
  rewrite possible_slots_cons, length_app, length_fmap, IH. simpl. lia.
Qed.

(** Time-major order: the slots of the [i]-th time come as the [i]-th block
    of [length rooms] entries, in room order. *)
Lemma possible_slots_lookup (ts rs : list string) (i j : nat) (t r : string) :
  ts !! i = Some t → rs !! j = Some r →
  possible_slots ts rs !! (i * length rs + j) = Some (t, r).
Proof.
  revert i. induction ts as [|t0 ts IH]; intros i Hi Hj; [done|].
  rewrite possible_slots_cons. destruct i as [|i]; simpl in *.
  - injection Hi as ->. rewrite lookup_app_l.
    + by rewrite list_lookup_fmap, Hj.
    + rewrite length_fmap. by eapply lookup_lt_Some.
  - rewrite lookup_app_r; rewrite length_fmap; [|lia].
    replace (length rs + i * length rs + j - length rs)
      with (i * length rs + j) by lia.
    by apply IH.
Qed.

Lemma possible_slots_elem (ts rs : list string) (t r : string) :
  (t, r) ∈ possible_slots ts rs ↔ t ∈ ts ∧ r ∈ rs.
Proof.
  induction ts as [|t0 ts IH].
  - split; [intros H; by apply elem_of_nil in H|].
    intros [H _]. by apply elem_of_nil in H.
  - rewrite possible_slots_cons, elem_of_app, list_elem_of_fmap, IH,
      elem_of_cons.
    split.
    + intros [(r' & [= -> ->] & Hr)|[Ht Hr]]; auto.
    + intros [[->|Ht] Hr]; [left; by exists r | by right].
Qed.

Lemma course_init_run (courses time_slots0 rooms0 : list string)
    (conflicts0 : list (string * string)) (h : gmap loc (list slot)) :
  ∃ self h',
    __init__ courses time_slots0 rooms0 conflicts0 h = (Ok self, h')
    ∧ time_slots self = time_slots0 ∧ rooms self = rooms0
    ∧ conflicts self = conflicts0 ∧ variables self = courses
    ∧ h ⊆ h'
    ∧ fresh_copies h h' (domains self) courses
        (possible_slots time_slots0 rooms0).
Proof.
  unfold __init__, mbind at 1, M_bind at 1, list_new.
  pose proof (fresh_unused h) as Hfresh.
  set (l0 := fresh (dom h)) in *.
  set (h1 := <[l0 := possible_slots time_slots0 rooms0]> h).
  assert (Hext : h ⊆ h1) by by apply insert_subseteq.
  destruct (copies_from_empty courses l0
              (possible_slots time_slots0 rooms0) h1)
    as (d' & h' & Hrun & Hsub & Hnew & Hold & Hinj).
  { apply lookup_insert_eq. }
  unfold mbind, M_bind. rewrite Hrun.
  eexists _, h'. split; [done|]. simpl. do 4 (split; [done|]).
  split; [by etrans|]. split; [|done].
  intros c Hc. destruct (Hnew c Hc) as (l & Hd & Hh' & Hh1).
  exists l. split_and!; [done..|].
  destruct (h !! l) as [ys|] eqn:Hl; [|done].
  eapply lookup_weaken in Hl; [|exact Hext]. congruence.
Qed.

Lemma course_domain_fixed (self : instance) (h h' : gmap loc (list slot))
    (courses : list string) (slots ys : list slot) (l0 : loc) (c : string) :
  fresh_copies h h' (domains self) courses slots →
  is_Some (h !! l0) → c ∈ courses →
  domain self h' c = slots ∧ domain self (<[l0 := ys]> h') c = slots.
Proof.
  intros (Hnew & _ & _) Hl0 Hc. destruct (Hnew c Hc) as (l & Hd & Hh' & Hh).
  unfold domain. rewrite Hd. split; [by rewrite Hh'|].
  rewrite lookup_insert_ne; [by rewrite Hh'|].
  intros ->. rewrite Hh in Hl0. by destruct Hl0.
Qed.

End CourseSchedulingConstructor.

(** ** Solutions of the two problem classes *)

Section Solutions.

(** With a symmetric [neighbors] mapping a returned colouring passes the
    check of every region against all the other regions. *)
Lemma map_solution_consistent (self : MapColoringProblem.instance)
    (h : gmap loc (list string)) (sol : gmap string string) :
  MapColoringProblem.symmetric self →
  Solver.backtracking_search (MapColoringProblem.problem self h)
  = Solver.Solution sol →
  ∀ v x, sol !! v = Some x →
    MapColoringProblem.accepts self h v x (delete v sol) = true.
Proof.
  intros Hsym Hrun%backtracking_search_built v x Hv.
  apply map_accepts_iff. intros n Hn.
  destruct (decide (v = n)) as [<-|Hne]; [by rewrite lookup_delete_eq|].
  rewrite lookup_delete_ne by done. intros Hx.
  by apply (map_built_proper self h sol Hsym Hrun v n x x).
Qed.

(** A returned timetable passes the check of every course against all the
    other courses. *)
Lemma course_solution_consistent (self : CourseSchedulingProblem.instance)
    (h : gmap loc (list CourseSchedulingProblem.slot))
    (sol : gmap string CourseSchedulingProblem.slot) :
  Solver.backtracking_search (CourseSchedulingProblem.problem self h)
  = Solver.Solution sol →
  ∀ c t r, sol !! c = Some (t, r) →
    CourseSchedulingProblem.accepts self h c (t, r) (delete c sol) = true.
Proof.
  intros Hrun%backtracking_search_built c t r Hc.
  destruct (CourseSchedulingProblem.accepts self h c (t, r) (delete c sol))
    eqn:Hacc; [done|].
  apply course_accepts_false in Hacc as (c' & t' & r' & Hne & Hc' & -> & Hclash).
  rewrite lookup_delete_ne in Hc' by done.
  destruct (course_built_proper self h sol Hrun c c' t r t r')
    as [Hroom Hconf]; [done..|].
  destruct Hclash as [->|Hin]; [by destruct Hroom|by destruct Hconf].
Qed.

End Solutions.

(** ** The runs recorded in the notebooks *)

Section Notebooks.
Import Scenario.

(** The colouring printed by the map colouring notebook. *)
Example map_coloring_notebook_output :
  solve_map provinces province_neighbors colors
  = Ok (Solver.Solution
          (<["นครปฐม" := "แดง"]> (<["สมุทรปราการ" := "เขียว"]>
           (<["ปทุมธานี" := "น้ำเงิน"]> (<["นนทบุรี" := "เขียว"]>
            (<["กรุงเทพมหานคร" := "แดง"]> ∅)))))).
Proof. vm_compute. reflexivity. Qed.

(** The timetable printed by the course scheduling notebook. *)
Example course_scheduling_notebook_output :
  solve_courses courses time_slots rooms conflicts
  = Ok (Solver.Solution
          (<["ประวัติศาสตร์" := ("08:00-10:00", "ห้อง201")]>
           (<["ชีววิทยา" := ("10:00-12:00", "ห้อง102")]>
            (<["เคมี" := ("08:00-10:00", "ห้อง102")]>
             (<["ฟิสิกส์" := ("10:00-12:00", "ห้อง101")]>
              (<["คณิตศาสตร์" := ("08:00-10:00", "ห้อง101")]> ∅)))))).
Proof. vm_compute. reflexivity. Qed.

(** The scenarios of the specification: three regions in a row get
    red, green, red; three mutually adjacent regions cannot be coloured
    with two colours. *)
Example row_output :
  solve_map ["A"; "B"; "C"] row_neighbors ["red"; "green"]
  = Ok (Solver.Solution
          (<["C" := "red"]> (<["B" := "green"]> (<["A" := "red"]> ∅)))).
Proof. vm_compute. reflexivity. Qed.

Example triangle_output :
  solve_map ["A"; "B"; "C"]
    (<["A" := ["B"; "C"]]> (<["B" := ["A"; "C"]]> (<["C" := ["A"; "B"]]> ∅)))
    ["red"; "green"]
  = Ok Solver.NoSolution.
Proof. vm_compute. reflexivity. Qed.

Example timetable_constructed :
  CourseSchedulingProblem.__init__ ["math"; "physics"] ["08:00"; "10:00"]
    ["101"] [("math", "physics")] ∅
  = (Ok timetable, timetable_heap).
Proof. vm_compute. reflexivity. Qed.

End Notebooks.

(** ** The claims *)

Section Claims.
Import Scenario.

(** C1 (map colouring, as amended).  For every problem, variable [v], value
    [x] and assignment [A], [is_consistent(v, x, A)] returns, and returns
    [True] exactly when no neighbour listed under [v] is assigned [x].
    When the [neighbors] mapping lists every adjacency in both directions,
    an assignment built only from accepted pairs gives different colours
    to distinct adjacent regions. *)
Theorem map_is_consistent_spec (self : MapColoringProblem.instance)
    (h : gmap loc (list string)) (A : gmap string string) (v x : string) :
  (∃ b, MapColoringProblem.is_consistent v x (MapColoringProblem.State self h A)
        = (Ok b, MapColoringProblem.State self h A)
        ∧ (b = true ↔
           ∀ n, n ∈ MapColoringProblem.listed self v → A !! n ≠ Some x))
  ∧ (MapColoringProblem.symmetric self →
     built (MapColoringProblem.accepts self h) A →
     ∀ u n c c', u ≠ n → n ∈ MapColoringProblem.listed self u →
       A !! u = Some c → A !! n = Some c' → c ≠ c').
Proof.
  split.
  - eexists. split; [apply is_consistent_run|]. simpl.
    apply neighbors_loop_true.
  - apply map_built_proper.
Qed.

Lemma row_symmetric : MapColoringProblem.symmetric row.
Proof.
  intros v n. unfold MapColoringProblem.listed. simpl. unfold row_neighbors.
  destruct (decide (v = "A")) as [->|HA].
  { rewrite lookup_insert_eq. simpl.
    intros ->%list_elem_of_singleton. vm_compute. set_solver. }
  rewrite lookup_insert_ne by done.
  destruct (decide (v = "B")) as [->|HB].
  { rewrite lookup_insert_eq. simpl.
    intros [->|[->|H]%elem_of_cons]%elem_of_cons.
    - vm_compute. set_solver.
    - vm_compute. set_solver.
    - by apply elem_of_nil in H. }
  rewrite lookup_insert_ne by done.
  destruct (decide (v = "C")) as [->|HC].
  { rewrite lookup_insert_eq. simpl.
    intros ->%list_elem_of_singleton. vm_compute. set_solver. }
  rewrite lookup_insert_ne by done. rewrite lookup_empty. simpl.
  intros H. by apply elem_of_nil in H.
Qed.

(** On the row of three regions, which lists every adjacency in both
    directions: after [("A", "red")] and then [("B", "green")] were
    accepted, the check of [("C", "red")] returns, and the adjacent regions
    ["A"] and ["B"] hold different colours. *)
Lemma map_is_consistent_spec_row :
  (∃ b, MapColoringProblem.is_consistent "C" "red"
          (MapColoringProblem.State row row_heap
             (<["B" := "green"]> (<["A" := "red"]> ∅)))
        = (Ok b, MapColoringProblem.State row row_heap
                   (<["B" := "green"]> (<["A" := "red"]> ∅)))
        ∧ (b = true ↔
           ∀ n, n ∈ MapColoringProblem.listed row "C" →
                (<["B" := "green"]> (<["A" := "red"]> ∅) : gmap string string)
                  !! n ≠ Some "red"))
  ∧ MapColoringProblem.symmetric row
  ∧ built (MapColoringProblem.accepts row row_heap)
      (<["B" := "green"]> (<["A" := "red"]> ∅))
  ∧ "B" ∈ MapColoringProblem.listed row "A"
  ∧ (<["B" := "green"]> (<["A" := "red"]> ∅) : gmap string string) !! "A"
    = Some "red"
  ∧ (<["B" := "green"]> (<["A" := "red"]> ∅) : gmap string string) !! "B"
    = Some "green"
  ∧ "red" ≠ "green".
Proof.
  destruct (map_is_consistent_spec row row_heap
              (<["B" := "green"]> (<["A" := "red"]> ∅)) "C" "red")
    as [Hiff Hbuilt].
  assert (Hacc : built (MapColoringProblem.accepts row row_heap)
                   (<["B" := "green"]> (<["A" := "red"]> ∅))).
  { apply built_insert; [apply built_insert; [apply built_empty|]|];
      vm_compute; reflexivity. }
  assert (HB : "B" ∈ MapColoringProblem.listed row "A").
  { vm_compute. by left. }
  assert (Hu : (<["B" := "green"]> (<["A" := "red"]> ∅) : gmap string string)
               !! "A" = Some "red") by (vm_compute; reflexivity).
  assert (Hn : (<["B" := "green"]> (<["A" := "red"]> ∅) : gmap string string)
               !! "B" = Some "green") by (vm_compute; reflexivity).
  split_and!; [exact Hiff | exact row_symmetric | exact Hacc | exact HB
              | exact Hu | exact Hn |].
  apply (Hbuilt row_symmetric Hacc "A" "B" "red" "green");
    [discriminate | exact HB | exact Hu | exact Hn].
Defined.

(** C1, as stated, fails when an adjacency is listed in one direction
    only: with ["B"] listed under ["A"] and nothing listed under ["B"], the
    pair [("A", "red")] is accepted against the empty assignment and then
    [("B", "red")] against [{"A": "red"}]; the two adjacent regions end
    with the same colour. *)
Lemma one_way_same_color :
  built (MapColoringProblem.accepts one_way one_way_heap)
    (<["B" := "red"]> (<["A" := "red"]> ∅))
  ∧ "B" ∈ MapColoringProblem.listed one_way "A"
  ∧ (<["B" := "red"]> (<["A" := "red"]> ∅) : gmap string string) !! "A"
    = Some "red"
  ∧ (<["B" := "red"]> (<["A" := "red"]> ∅) : gmap string string) !! "B"
    = Some "red".
Proof.
  split_and!.
  - apply built_insert; [apply built_insert; [apply built_empty|]|];
      vm_compute; reflexivity.
  - vm_compute. set_solver.
  - vm_compute. reflexivity.
  - vm_compute. reflexivity.
Qed.

(** C2 (course scheduling).  [is_consistent(c, (time, room), A)] returns,
    and returns [False] exactly when some assigned course other than [c]
    has the same time and the same room, or has the same time and forms a
    pair of the conflicts list with [c], in either order.  Hence two
    distinct courses forming a conflict pair never share a time in an
    assignment built from accepted pairs, while a course is accepted in the
    room of another one at a different time. *)
Theorem course_is_consistent_spec (self : CourseSchedulingProblem.instance)
    (h : gmap loc (list CourseSchedulingProblem.slot))
    (A : gmap string CourseSchedulingProblem.slot) (c time room : string) :
  (∃ b, CourseSchedulingProblem.is_consistent c (time, room)
          (CourseSchedulingProblem.State self h A)
        = (Ok b, CourseSchedulingProblem.State self h A)
        ∧ (b = false ↔
           ∃ c' t' r', c' ≠ c ∧ A !! c' = Some (t', r') ∧ t' = time
             ∧ (r' = room
                ∨ (c, c') ∈ CourseSchedulingProblem.conflicts self
                ∨ (c', c) ∈ CourseSchedulingProblem.conflicts self)))
  ∧ (built (CourseSchedulingProblem.accepts self h) A →
     ∀ c1 c2 t1 r1 t2 r2, c1 ≠ c2 →
       CourseSchedulingProblem.in_conflict self c1 c2 →
       A !! c1 = Some (t1, r1) → A !! c2 = Some (t2, r2) → t1 ≠ t2)
  ∧ (∀ c' time', time' ≠ time →
       CourseSchedulingProblem.accepts self h c' (time', room)
         (<[c := (time, room)]> ∅) = true).
Proof.
  split_and!.
  - eexists. split; [apply is_consistent_run_course|]. simpl.
    apply course_loop_false.
  - intros Hbuilt c1 c2 t1 r1 t2 r2 Hne Hc H1 H2 Ht.
    by destruct (course_built_proper self h A Hbuilt c1 c2 t1 r1 t2 r2).
  - intros c' time' Hne.
    destruct (CourseSchedulingProblem.accepts self h c' (time', room) _)
      eqn:Hacc; [done|].
    apply course_accepts_false in Hacc as (c'' & t'' & r'' & _ & HA & Ht & _).
    apply lookup_insert_Some in HA as [[_ [= <- <-]]|[_ HA]]; [done|].
    by rewrite lookup_empty in HA.
Qed.

(** With mathematics at 08:00 in room 101, physics is refused at 08:00 and
    accepted at 10:00 in the same room. *)
Lemma course_is_consistent_spec_timetable :
  (∃ b, CourseSchedulingProblem.is_consistent "physics" ("08:00", "101")
          (CourseSchedulingProblem.State timetable timetable_heap
             (<["math" := ("08:00", "101")]> ∅))
        = (Ok b, CourseSchedulingProblem.State timetable timetable_heap
                   (<["math" := ("08:00", "101")]> ∅))
        ∧ b = false)
  ∧ ("08:00" ≠ "10:00")
  ∧ CourseSchedulingProblem.accepts timetable timetable_heap
      "physics" ("10:00", "101") (<["math" := ("08:00", "101")]> ∅) = true.
Proof.
  destruct (course_is_consistent_spec timetable timetable_heap
              (<["math" := ("08:00", "101")]> ∅) "physics" "08:00" "101")
    as ((b & Hrun & Hiff) & _ & _).
  destruct (course_is_consistent_spec timetable timetable_heap
              (<["physics" := ("10:00", "101")]>
                 (<["math" := ("08:00", "101")]> ∅)) "math" "08:00" "101")
    as (_ & Hbuilt & Hroom).
  split; [|split].
  - exists b. split; [exact Hrun|]. apply Hiff.
    exists "math", "08:00", "101".
    split; [discriminate|]. split; [vm_compute; reflexivity|].
    split; [reflexivity|]. right. right. simpl. by left.
  - assert (Hb : built (CourseSchedulingProblem.accepts timetable timetable_heap)
              (<["physics" := ("10:00", "101")]>
                 (<["math" := ("08:00", "101")]> ∅))).
    { apply built_insert; [apply built_insert; [apply built_empty|]|];
        vm_compute; reflexivity. }
    apply (Hbuilt Hb "math" "physics" "08:00" "101" "10:00" "101").
    + discriminate.
    + left. simpl. by left.
    + vm_compute; reflexivity.
    + vm_compute; reflexivity.
  - apply (Hroom "physics" "10:00"). discriminate.
Defined.

(** C3 (the solver, as amended).  The search always returns, a solution
    or the no-solution signal.  A returned solution assigns exactly the
    variables of the problem, each to a value of its domain, and for every
    variable [v] the call [is_consistent(v, solution[v], ...)] holds
    against the solution restricted to the variables that come before [v]
    in the variable order: the solution is built from pairs accepted
    against what was assigned before them. *)
Theorem backtracking_search_solution {V} (p : Solver.problem V) :
  Solver.backtracking_search p ≠ Solver.OutOfFuel
  ∧ ∀ sol, Solver.backtracking_search p = Solver.Solution sol →
      (∀ v, is_Some (sol !! v) ↔ v ∈ Solver.variables p)
      ∧ (∀ i v x, Solver.variables p !! i = Some v →
           v ∉ take i (Solver.variables p) → sol !! v = Some x →
           x ∈ Solver.domain p v
           ∧ Solver.is_consistent p v x
               (Solver.restrict (take i (Solver.variables p)) sol) = true)
      ∧ built (Solver.is_consistent p) sol.
Proof.
  split.
  - apply backtracking_search_returns.
  - intros sol Hrun.
    destruct (backtracking_search_sound p sol Hrun) as [Hall Hacc].
    split_and!; [done..|]. by apply backtracking_search_built.
Qed.

(** On the row of three regions the search returns the colouring
    red, green, red. *)
Lemma backtracking_search_solution_row :
  Solver.backtracking_search (MapColoringProblem.problem row row_heap)
  = Solver.Solution (<["C" := "red"]> (<["B" := "green"]> (<["A" := "red"]> ∅)))
  ∧ "green" ∈ MapColoringProblem.domain row row_heap "B"
  ∧ MapColoringProblem.accepts row row_heap "B" "green"
      (Solver.restrict ["A"]
         (<["C" := "red"]> (<["B" := "green"]> (<["A" := "red"]> ∅))))
    = true.
Proof.
  assert (Hrun :
    Solver.backtracking_search (MapColoringProblem.problem row row_heap)
    = Solver.Solution
        (<["C" := "red"]> (<["B" := "green"]> (<["A" := "red"]> ∅)))).
  { vm_compute. reflexivity. }
  split; [exact Hrun|].
  destruct (backtracking_search_solution
              (MapColoringProblem.problem row row_heap)) as [_ Hsound].
  destruct (Hsound _ Hrun) as (_ & Hacc & _).
  apply (Hacc 1 "B" "green").
  - reflexivity.
  - simpl. intros [H|H]%elem_of_cons; [discriminate|by apply elem_of_nil in H].
  - vm_compute. reflexivity.
Defined.

(** C3, as stated, fails on the map with the adjacency listed under ["A"]
    only: the search returns [{"A": "red", "B": "red"}], and
    [is_consistent("A", "red", {"B": "red"})] is [False]. *)
Lemma one_way_solution_inconsistent :
  MapColoringProblem.__init__ ["A"; "B"] (<["A" := ["B"]]> ∅) 0
    (<[0 := ["red"]]> ∅) = (Ok one_way, one_way_heap)
  ∧ Solver.backtracking_search (MapColoringProblem.problem one_way one_way_heap)
    = Solver.Solution (<["B" := "red"]> (<["A" := "red"]> ∅))
  ∧ MapColoringProblem.is_consistent "A" "red"
      (MapColoringProblem.State one_way one_way_heap
         (delete "A" (<["B" := "red"]> (<["A" := "red"]> ∅))))
    = (Ok false,
       MapColoringProblem.State one_way one_way_heap
         (delete "A" (<["B" := "red"]> (<["A" := "red"]> ∅)))).
Proof. split_and!; vm_compute; reflexivity. Qed.




(** C5 (initial domains).  The constructor of a map colouring problem
    returns without error when [colors] is a list, and that of a course
    scheduling problem always does.  Afterwards every region refers to a
    list object of its own that holds the elements of [colors], and every
    course to one of its own that holds the product of the times and the
    rooms in time-major order.  These objects did not exist before the
    call, so none is a list the caller holds, and storing into a list the
    caller holds leaves every domain as it is. *)
Theorem initial_domains :
  (∀ regions neighbors0 colors cs (h : gmap loc (list string)),
     h !! colors = Some cs →
     ∃ self h',
       MapColoringProblem.__init__ regions neighbors0 colors h = (Ok self, h')
       ∧ MapColoringProblem.variables self = regions
       ∧ h ⊆ h'
       ∧ fresh_copies h h' (MapColoringProblem.domains self) regions cs
       ∧ ∀ r l0 ys, r ∈ regions → is_Some (h !! l0) →
           MapColoringProblem.domain self h' r = cs
           ∧ MapColoringProblem.domain self (<[l0 := ys]> h') r = cs)
  ∧ (∀ courses time_slots0 rooms0 conflicts0
       (h : gmap loc (list CourseSchedulingProblem.slot)),
     ∃ self h',
       CourseSchedulingProblem.__init__ courses time_slots0 rooms0 conflicts0 h
       = (Ok self, h')
       ∧ CourseSchedulingProblem.variables self = courses
       ∧ h ⊆ h'
       ∧ fresh_copies h h' (CourseSchedulingProblem.domains self) courses
           (CourseSchedulingProblem.possible_slots time_slots0 rooms0)
       ∧ ∀ c l0 ys, c ∈ courses → is_Some (h !! l0) →
           CourseSchedulingProblem.domain self h' c
           = CourseSchedulingProblem.possible_slots time_slots0 rooms0
           ∧ CourseSchedulingProblem.domain self (<[l0 := ys]> h') c
             = CourseSchedulingProblem.possible_slots time_slots0 rooms0)
  ∧ (∀ time_slots0 rooms0,
       length (CourseSchedulingProblem.possible_slots time_slots0 rooms0)
       = length time_slots0 * length rooms0
       ∧ ∀ i j t r, time_slots0 !! i = Some t → rooms0 !! j = Some r →
           CourseSchedulingProblem.possible_slots time_slots0 rooms0
             !! (i * length rooms0 + j) = Some (t, r)).
Proof.
  split_and!.
  - intros regions neighbors0 colors cs h Hcs.
    destruct (map_init_run regions neighbors0 colors cs h Hcs)
      as (self & h' & Hrun & _ & Hvars & Hsub & Hfresh).
    exists self, h'. split_and!; [done..|].
    intros r l0 ys Hr Hl0. by eapply map_domain_fixed.
  - intros courses ts rs cf h.
    destruct (course_init_run courses ts rs cf h)
      as (self & h' & Hrun & _ & _ & _ & Hvars & Hsub & Hfresh).
    exists self, h'. split_and!; [done..|].
    intros c l0 ys Hc Hl0. by eapply course_domain_fixed.
  - intros ts rs. split.
    + apply possible_slots_length.
    + apply possible_slots_lookup.
Qed.

(** The constructor run on the row of three regions. *)
Lemma initial_domains_row :
  MapColoringProblem.__init__ ["A"; "B"; "C"] row_neighbors 0
    (<[0 := ["red"; "green"]]> ∅) = (Ok row, row_heap)
  ∧ ∃ self h',
      MapColoringProblem.__init__ ["A"; "B"; "C"] row_neighbors 0
        (<[0 := ["red"; "green"]]> ∅) = (Ok self, h')
      ∧ MapColoringProblem.variables self = ["A"; "B"; "C"]
      ∧ (<[0 := ["red"; "green"]]> ∅ : gmap loc (list string)) ⊆ h'
      ∧ fresh_copies (<[0 := ["red"; "green"]]> ∅) h'
          (MapColoringProblem.domains self) ["A"; "B"; "C"] ["red"; "green"]
      ∧ ∀ r l0 ys, r ∈ ["A"; "B"; "C"] →
          is_Some ((<[0 := ["red"; "green"]]> ∅ : gmap loc (list string)) !! l0) →
          MapColoringProblem.domain self h' r = ["red"; "green"]
          ∧ MapColoringProblem.domain self (<[l0 := ys]> h') r
            = ["red"; "green"].
Proof.
  split; [vm_compute; reflexivity|].
  destruct initial_domains as (Hmap & _ & _).
  apply Hmap. vm_compute. reflexivity.
Defined.

(** C6 (what the predicates read).  A call is a function of its inputs,
    and of few of them: for a map colouring problem the result is
    determined by the list of neighbours of [v] and by the entries of the
    assignment for these neighbours; for a course scheduling problem by
    the conflicts list and by the entries of the assignment for the
    courses other than [c].  Domains, variables without a value and the
    rest of the store have no influence. *)
Theorem is_consistent_reads_assigned_only :
  (∀ σ σ' v x,
     MapColoringProblem.listed (MapColoringProblem.self σ) v
     = MapColoringProblem.listed (MapColoringProblem.self σ') v →
     (∀ n, n ∈ MapColoringProblem.listed (MapColoringProblem.self σ) v →
           MapColoringProblem.assignment σ !! n
           = MapColoringProblem.assignment σ' !! n) →
     (MapColoringProblem.is_consistent v x σ).1
     = (MapColoringProblem.is_consistent v x σ').1)
  ∧ (∀ σ σ' v x,
       MapColoringProblem.assignment σ = MapColoringProblem.assignment σ' →
       (∀ n, is_Some (MapColoringProblem.assignment σ !! n) →
             (n ∈ MapColoringProblem.listed (MapColoringProblem.self σ) v
              ↔ n ∈ MapColoringProblem.listed (MapColoringProblem.self σ') v)) →
       (MapColoringProblem.is_consistent v x σ).1
       = (MapColoringProblem.is_consistent v x σ').1)
  ∧ (∀ σ σ' c val,
       CourseSchedulingProblem.conflicts (CourseSchedulingProblem.self σ)
       = CourseSchedulingProblem.conflicts (CourseSchedulingProblem.self σ') →
       (∀ c', c' ≠ c →
              CourseSchedulingProblem.assignment σ !! c'
              = CourseSchedulingProblem.assignment σ' !! c') →
       (CourseSchedulingProblem.is_consistent c val σ).1
       = (CourseSchedulingProblem.is_consistent c val σ').1).
Proof.
  split_and!.
  - intros σ σ' v x Hlisted Hsame. rewrite !is_consistent_run. simpl.
    rewrite <- Hlisted. do 2 f_equal. apply first_return_ext.
    intros n Hn. simpl. by rewrite (Hsame n Hn).
  - intros σ σ' v x HA Hlisted. rewrite !is_consistent_run. simpl. f_equal.
    rewrite <- HA.
    pose proof (neighbors_loop_true (MapColoringProblem.assignment σ) x
      (MapColoringProblem.listed (MapColoringProblem.self σ) v)) as H.
    pose proof (neighbors_loop_true (MapColoringProblem.assignment σ) x
      (MapColoringProblem.listed (MapColoringProblem.self σ') v)) as H'.
    assert (Hiff :
      (∀ n, n ∈ MapColoringProblem.listed (MapColoringProblem.self σ) v →
            MapColoringProblem.assignment σ !! n ≠ Some x)
      ↔ (∀ n, n ∈ MapColoringProblem.listed (MapColoringProblem.self σ') v →
              MapColoringProblem.assignment σ !! n ≠ Some x)).
    { split; intros Hall n Hn Hx; apply (Hall n); try done;
        apply Hlisted; try done; by rewrite Hx. }
    destruct (default true _), (default true _); try done.
    + symmetry. by apply H', Hiff, H.
    + by apply H, Hiff, H'.
  - intros σ σ' c [t r] Hconf Hsame. rewrite !is_consistent_run_course. simpl.
    f_equal. by apply course_loop_ext.
Qed.

(** Entries of regions that are not neighbours, the entry of the course
    itself and the list objects have no influence. *)
Lemma is_consistent_reads_assigned_only_row :
  (MapColoringProblem.is_consistent "A" "red"
     (MapColoringProblem.State row row_heap (<["B" := "green"]> ∅))).1
  = (MapColoringProblem.is_consistent "A" "red"
       (MapColoringProblem.State row ∅
          (<["C" := "red"]> (<["B" := "green"]> ∅)))).1
  ∧ (CourseSchedulingProblem.is_consistent "math" ("08:00", "101")
       (CourseSchedulingProblem.State timetable timetable_heap
          (<["math" := ("10:00", "101")]> ∅))).1
    = (CourseSchedulingProblem.is_consistent "math" ("08:00", "101")
         (CourseSchedulingProblem.State timetable ∅ ∅)).1.
Proof.
  destruct is_consistent_reads_assigned_only as (Hmap & _ & Hcourse).
  split.
  - apply Hmap; [reflexivity|]. simpl.
    intros n ->%list_elem_of_singleton. vm_compute. reflexivity.
  - apply Hcourse; [reflexivity|]. simpl.
    intros c' Hne. rewrite lookup_insert_ne by done. reflexivity.
Defined.

(** C7 (no mutation).  A call of either predicate leaves the store as it
    found it: the fields of the problem, the list objects of the domains
    and the assignment passed in are those of before the call. *)
Theorem is_consistent_mutates_nothing :
  (∀ σ v x, (MapColoringProblem.is_consistent v x σ).2 = σ)
  ∧ (∀ σ c val, (CourseSchedulingProblem.is_consistent c val σ).2 = σ).
Proof.
  split.
  - intros σ v x. revert σ. change (readonly (MapColoringProblem.is_consistent v x)).
    unfold MapColoringProblem.is_consistent, MapColoringProblem.neighbors_get,
      MapColoringProblem.assignment_contains.
    apply readonly_bind; [auto with readonly|]. intros ns.
    apply readonly_bind; [|auto with readonly].
    apply readonly_for_each. intros n.
    apply readonly_bind; [auto with readonly|]. intros present.
    apply readonly_bind; [|intros []; auto with readonly].
    destruct present; [|auto with readonly].
    apply readonly_bind; [|auto with readonly].
    unfold MapColoringProblem.assignment_getitem.
    apply readonly_bind; [auto with readonly|].
    intros [c|]; auto with readonly.
  - intros σ c [t r]. revert σ.
    change (readonly (CourseSchedulingProblem.is_consistent c (t, r))).
    unfold CourseSchedulingProblem.is_consistent,
      CourseSchedulingProblem.assignment_items,
      CourseSchedulingProblem.self_conflicts.
    apply readonly_bind; [auto with readonly|]. intros items.
    apply readonly_bind; [|auto with readonly].
    apply readonly_for_each. intros [c' [t' r']].
    repeat case_match; auto with readonly.
    apply readonly_bind; [auto with readonly|]. intros pairs.
    apply readonly_for_each. intros [c1 c2].
    case_match; auto with readonly.
Qed.

(** C8 (empty assignment).  Against the empty assignment both predicates
    return [True], for every variable and every candidate value. *)
Theorem is_consistent_empty_assignment :
  (∀ self h v x,
     MapColoringProblem.is_consistent v x (MapColoringProblem.State self h ∅)
     = (Ok true, MapColoringProblem.State self h ∅))
  ∧ (∀ self h c val,
       CourseSchedulingProblem.is_consistent c val
         (CourseSchedulingProblem.State self h ∅)
       = (Ok true, CourseSchedulingProblem.State self h ∅)).
Proof.
  split.
  - intros self h v x. rewrite is_consistent_run. do 2 f_equal. simpl.
    apply neighbors_loop_true. intros n _. by rewrite lookup_empty.
  - intros self h c val. rewrite is_consistent_run_course. simpl.
    by rewrite map_to_list_empty.
Qed.

(** C9 (no entry in [neighbors]).  For a variable without an entry in the
    [neighbors] mapping the call raises nothing and returns [True],
    whatever the value and the assignment. *)
Theorem is_consistent_no_entry (σ : MapColoringProblem.state) (v x : string) :
  MapColoringProblem.neighbors (MapColoringProblem.self σ) !! v = None →
  MapColoringProblem.is_consistent v x σ = (Ok true, σ).
Proof.
  intros Hnone. rewrite is_consistent_run.
  unfold MapColoringProblem.listed. by rewrite Hnone.
Qed.

(** Nothing is listed under ["B"] in the one-way map. *)
Lemma is_consistent_no_entry_one_way :
  MapColoringProblem.is_consistent "B" "red"
    (MapColoringProblem.State one_way one_way_heap (<["A" := "red"]> ∅))
  = (Ok true,
     MapColoringProblem.State one_way one_way_heap (<["A" := "red"]> ∅)).
Proof.
  apply is_consistent_no_entry. vm_compute. reflexivity.
Defined.

(** C10 (own entry).  The result for a course does not change when the
    entry of that course is removed from the assignment. *)
Theorem is_consistent_ignores_own_entry
    (self : CourseSchedulingProblem.instance)
    (h : gmap loc (list CourseSchedulingProblem.slot))
    (A : gmap string CourseSchedulingProblem.slot) (c : string)
    (val : CourseSchedulingProblem.slot) :
  (CourseSchedulingProblem.is_consistent c val
     (CourseSchedulingProblem.State self h A)).1
  = (CourseSchedulingProblem.is_consistent c val
       (CourseSchedulingProblem.State self h (delete c A))).1.
Proof.
  destruct val as [t r]. rewrite !is_consistent_run_course. simpl. f_equal.
  apply course_loop_ext; [done|]. intros c' Hne. by rewrite lookup_delete_ne.
Qed.

End Claims.

(** * Further properties *)

(** ** The map colouring predicate as a constraint *)

Section MapColoringConstraint.
Import MapColoringProblem Scenario.

Lemma map_result_true (σ : state) (v x : string) :
  (is_consistent v x σ).1 = Ok true
  ↔ ∀ n, n ∈ listed (self σ) v → assignment σ !! n ≠ Some x.
Proof.
  rewrite is_consistent_run. simpl. rewrite <- neighbors_loop_true.
  split; [by intros [= ->] | by intros ->].
Qed.

(** What a single entry [n := c] of the assignment does to the check. *)
Lemma map_result_single (self : instance) (h : gmap loc (list string))
    (v x n c : string) :
  (is_consistent v x (State self h (<[n := c]> ∅))).1 = Ok true
  ↔ ¬ (n ∈ listed self v ∧ c = x).
Proof.
  rewrite map_result_true. simpl. split.
  - intros Hall [Hn ->]. apply (Hall n Hn). by rewrite lookup_insert_eq.
  - intros Hno m Hm Hx.
    apply lookup_insert_Some in Hx as [[-> ->]|[_ Hx]]; [by apply Hno|].
    by rewrite lookup_empty in Hx.
Qed.

(** X1.  A value accepted against an assignment is accepted against every
    part of it: taking entries away never turns [True] into [False], and
    adding entries never turns [False] into [True]. *)
Theorem map_is_consistent_antitone (self : instance)
    (h : gmap loc (list string)) (A A' : gmap string string) (v x : string) :
  A ⊆ A' →
  (is_consistent v x (State self h A')).1 = Ok true →
  (is_consistent v x (State self h A)).1 = Ok true.
Proof.
  intros Hsub. rewrite !map_result_true. simpl. intros Hall n Hn Hx.
  apply (Hall n Hn). by eapply lookup_weaken.
Qed.

(** In the row map, blue is accepted for ["B"] with ["A"] and ["C"]
    coloured, hence also with ["A"] alone. *)
Lemma map_is_consistent_antitone_row :
  (is_consistent "B" "blue"
     (State row row_heap (<["A" := "red"]> ∅))).1 = Ok true.
Proof.
  apply (map_is_consistent_antitone row row_heap (<["A" := "red"]> ∅)
           (<["C" := "green"]> (<["A" := "red"]> ∅)) "B" "blue").
  - apply insert_subseteq. vm_compute. reflexivity.
  - vm_compute. reflexivity.
Defined.

(** X2.  The check is a conjunction of checks against single entries: a
    value is accepted against an assignment exactly when it is accepted
    against each of its entries taken alone. *)
Theorem map_is_consistent_pairwise (self : instance)
    (h : gmap loc (list string)) (A : gmap string string) (v x : string) :
  (is_consistent v x (State self h A)).1 = Ok true
  ↔ ∀ n c, A !! n = Some c →
      (is_consistent v x (State self h (<[n := c]> ∅))).1 = Ok true.
Proof.
  rewrite map_result_true. simpl. split.
  - intros Hall n c Hn. apply map_result_single. intros [Hin ->].
    by apply (Hall n Hin).
  - intros Hall n Hn Hx. specialize (Hall n x Hx).
    apply map_result_single in Hall. by apply Hall.
Qed.

(** X3.  When every adjacency is listed in both directions the constraint
    between two regions is symmetric: [x] is accepted for [v] against
    [{n: c}] exactly when [c] is accepted for [n] against [{v: x}]. *)
Theorem map_is_consistent_symmetric (self : instance)
    (h : gmap loc (list string)) (v x n c : string) :
  symmetric self →
  (is_consistent v x (State self h (<[n := c]> ∅))).1
  = (is_consistent n c (State self h (<[v := x]> ∅))).1.
Proof.
  intros Hsym.
  pose proof (map_result_single self h v x n c) as H1.
  pose proof (map_result_single self h n c v x) as H2.
  rewrite !is_consistent_run in *. simpl in *.
  destruct (default true _), (default true _); try done.
  - exfalso. assert (Hno : ¬ (n ∈ listed self v ∧ c = x)) by by apply H1.
    assert (Hyes : ¬ ¬ (v ∈ listed self n ∧ x = c)).
    { intros Hn. by apply H2 in Hn. }
    apply Hyes. intros [Hin ->]. apply Hno. split; [by apply Hsym|done].
  - exfalso. assert (Hno : ¬ (v ∈ listed self n ∧ x = c)) by by apply H2.
    assert (Hyes : ¬ ¬ (n ∈ listed self v ∧ c = x)).
    { intros Hn. by apply H1 in Hn. }
    apply Hyes. intros [Hin ->]. apply Hno. split; [by apply Hsym|done].
Qed.

Lemma map_is_consistent_symmetric_row :
  (is_consistent "A" "red" (State row row_heap (<["B" := "red"]> ∅))).1
  = (is_consistent "B" "red" (State row row_heap (<["A" := "red"]> ∅))).1.
Proof.
  apply map_is_consistent_symmetric. exact row_symmetric.
Defined.

End MapColoringConstraint.

Section ColourSupply.
Import MapColoringProblem Scenario.

Lemma length_omap_le {A B} (f : A → option B) (l : list A) :
  length (omap f l) ≤ length l.
Proof.
  induction l as [|a l IH]; csimpl; [done|]. destruct (f a); csimpl; lia.
Qed.

Lemma map_rejected_used (σ : state) (v x : string) :
  (is_consistent v x σ).1 ≠ Ok true →
  x ∈ omap (λ n, assignment σ !! n) (listed (self σ) v).
Proof.
  intros Hrej. apply list_elem_of_omap.
  destruct (decide (Exists (λ n, assignment σ !! n = Some x)
                      (listed (self σ) v))) as [Hex|Hno].
  - apply Exists_exists in Hex as (n & Hn & Hx). eauto.
  - destruct Hrej. apply map_result_true. intros n Hn Hx.
    apply Hno, Exists_exists. eauto.
Qed.

(** X4.  With more colours than listed neighbours some colour is always
    left: for every assignment the check accepts at least one colour of a
    duplicate-free list that is longer than the list of neighbours of the
    region. *)
Theorem map_some_color_accepted (self : instance)
    (h : gmap loc (list string)) (A : gmap string string) (v : string)
    (palette : list string) :
  NoDup palette →
  length (listed self v) < length palette →
  ∃ x, x ∈ palette ∧ (is_consistent v x (State self h A)).1 = Ok true.
Proof.
  intros Hnodup Hlen.
  destruct (decide (Exists (λ x, accepts self h v x A = true) palette))
    as [Hex|Hno].
  - apply Exists_exists in Hex as (x & Hx & Hacc). exists x. split; [done|].
    unfold accepts, holds in Hacc. rewrite is_consistent_run in *.
    simpl in *. by rewrite Hacc.
  - exfalso.
    assert (Hused : ∀ x, x ∈ palette →
              x ∈ omap (λ n, A !! n) (listed self v)).
    { intros x Hx. apply (map_rejected_used (State self h A)).
      intros Hok. apply Hno, Exists_exists. exists x. split; [done|].
      unfold accepts, holds. by rewrite Hok. }
    pose proof (submseteq_length _ _ (NoDup_submseteq _ _ Hnodup Hused)).
    pose proof (length_omap_le (λ n, A !! n) (listed self v)). lia.
Qed.

(** ["A"] has one listed neighbour in the row map and there are two
    colours. *)
Lemma map_some_color_accepted_row :
  ∃ x, x ∈ ["red"; "green"]
       ∧ (is_consistent "A" x
            (State row row_heap (<["B" := "red"]> ∅))).1 = Ok true.
Proof.
  apply map_some_color_accepted.
  - apply NoDup_cons. split; [|apply NoDup_singleton].
    intros H%list_elem_of_singleton. discriminate.
  - vm_compute. lia.
Defined.

End ColourSupply.

(** ** The course scheduling predicate as a constraint *)

Section CourseSchedulingConstraint.
Import Scenario CourseSchedulingProblem.

Lemma course_result_false (σ : state) (c t r : string) :
  (is_consistent c (t, r) σ).1 = Ok false
  ↔ ∃ c' t' r', c' ≠ c ∧ assignment σ !! c' = Some (t', r') ∧ t' = t
                ∧ (r' = r ∨ in_conflict (self σ) c c').
Proof.
  rewrite is_consistent_run_course. simpl. rewrite <- course_loop_false.
  split; [by intros [= ->] | by intros ->].
Qed.

Lemma course_result_true (σ : state) (c t r : string) :
  (is_consistent c (t, r) σ).1 = Ok true
  ↔ ∀ c' t' r', c' ≠ c → assignment σ !! c' = Some (t', r') → t' = t →
      r' ≠ r ∧ ¬ in_conflict (self σ) c c'.
Proof.
  pose proof (course_result_false σ c t r) as Hfalse.
  rewrite is_consistent_run_course in *. simpl in *.
  destruct (default true _).
  - split; [intros _|done]. intros c' t' r' Hne HA Ht.
    split; intros Hbad; (assert (Ok true = Ok false) as [=]);
      apply Hfalse; exists c', t', r'; auto.
  - split; [done|]. intros Hall.
    destruct Hfalse as [(c' & t' & r' & Hne & HA & Ht & Hclash) _]; [done|].
    destruct (Hall c' t' r' Hne HA Ht) as [Hr Hc]. by destruct Hclash.
Qed.

Lemma course_result_single (self : instance) (h : gmap loc (list slot))
    (c t r c' t' r' : string) :
  (is_consistent c (t, r) (State self h (<[c' := (t', r')]> ∅))).1 = Ok true
  ↔ ¬ (c' ≠ c ∧ t' = t ∧ (r' = r ∨ in_conflict self c c')).
Proof.
  rewrite course_result_true. simpl. split.
  - intros Hall (Hne & Ht & Hclash).
    destruct (Hall c' t' r' Hne (lookup_insert_eq _ _ _) Ht) as [Hr Hc].
    by destruct Hclash.
  - intros Hno c'' t'' r'' Hne HA Ht.
    apply lookup_insert_Some in HA as [[<- [= <- <-]]|[_ HA]];
      [|by rewrite lookup_empty in HA].
    split; intros Hbad; apply Hno; auto.
Qed.

(** X5.  A slot accepted against an assignment is accepted against every
    part of it. *)
Theorem course_is_consistent_antitone (self : instance)
    (h : gmap loc (list slot)) (A A' : gmap string slot) (c : string)
    (value : slot) :
  A ⊆ A' →
  (is_consistent c value (State self h A')).1 = Ok true →
  (is_consistent c value (State self h A)).1 = Ok true.
Proof.
  destruct value as [t r]. intros Hsub. rewrite !course_result_true. simpl.
  intros Hall c' t' r' Hne HA Ht. apply (Hall c' t' r' Hne); [|done].
  by eapply lookup_weaken.
Qed.

Lemma course_is_consistent_antitone_timetable :
  (is_consistent "physics" ("10:00", "101")
     (State timetable timetable_heap ∅)).1 = Ok true.
Proof.
  apply (course_is_consistent_antitone timetable timetable_heap ∅
           (<["math" := ("08:00", "101")]> ∅)).
  - apply insert_subseteq. apply lookup_empty.
  - vm_compute. reflexivity.
Defined.

(** X6.  The check is a conjunction of checks against single entries. *)
Theorem course_is_consistent_pairwise (self : instance)
    (h : gmap loc (list slot)) (A : gmap string slot) (c : string)
    (value : slot) :
  (is_consistent c value (State self h A)).1 = Ok true
  ↔ ∀ c' value', A !! c' = Some value' →
      (is_consistent c value (State self h (<[c' := value']> ∅))).1 = Ok true.
Proof.
  destruct value as [t r]. rewrite course_result_true. simpl. split.
  - intros Hall c' [t' r'] HA. apply course_result_single.
    intros (Hne & Ht & Hclash).
    destruct (Hall c' t' r' Hne HA Ht) as [Hr Hc]. by destruct Hclash.
  - intros Hall c' t' r' Hne HA Ht.
    specialize (Hall c' (t', r') HA). apply course_result_single in Hall.
    split; intros Hbad; apply Hall; auto.
Qed.

(** X7.  The constraint between two courses is symmetric: a slot is
    accepted for [c] against [{c': value'}] exactly when [value'] is
    accepted for [c'] against [{c: value}]. *)
Theorem course_is_consistent_symmetric (self : instance)
    (h : gmap loc (list slot)) (c c' : string) (value value' : slot) :
  (is_consistent c value (State self h (<[c' := value']> ∅))).1
  = (is_consistent c' value' (State self h (<[c := value]> ∅))).1.
Proof.
  destruct value as [t r], value' as [t' r'].
  pose proof (course_result_single self h c t r c' t' r') as H1.
  pose proof (course_result_single self h c' t' r' c t r) as H2.
  assert (Hiff : (c' ≠ c ∧ t' = t ∧ (r' = r ∨ in_conflict self c c'))
                 ↔ (c ≠ c' ∧ t = t' ∧ (r = r' ∨ in_conflict self c' c))).
  { unfold in_conflict. naive_solver. }
  rewrite Hiff in H1.
  rewrite !is_consistent_run_course in *. simpl in *.
  destruct (default true _), (default true _); try done.
  - exfalso. destruct H1 as [H1 _]. specialize (H1 eq_refl).
    destruct H2 as [_ H2]. by specialize (H2 H1).
  - exfalso. destruct H2 as [H2 _]. specialize (H2 eq_refl).
    destruct H1 as [_ H1]. by specialize (H1 H2).
Qed.

End CourseSchedulingConstraint.

(** ** Conflicts, rooms and capacity *)

Section CourseSchedulingCapacity.
Import Scenario CourseSchedulingProblem.

(** The check reads the conflicts list only through the relation "the two
    courses form a pair of the list, in either order". *)
Lemma course_conflicts_relation (self self' : instance)
    (h h' : gmap loc (list slot)) (A : gmap string slot) (c : string)
    (value : slot) :
  (∀ c1 c2, in_conflict self c1 c2 ↔ in_conflict self' c1 c2) →
  (is_consistent c value (State self h A)).1
  = (is_consistent c value (State self' h' A)).1.
Proof.
  destruct value as [t r]. intros Hrel.
  pose proof (course_result_false (State self h A) c t r) as H.
  pose proof (course_result_false (State self' h' A) c t r) as H'.
  rewrite is_consistent_run_course in H, H'.
  rewrite !is_consistent_run_course. simpl in *.
  assert (Hiff :
    (∃ c' t' r', c' ≠ c ∧ A !! c' = Some (t', r') ∧ t' = t
                 ∧ (r' = r ∨ in_conflict self c c'))
    ↔ (∃ c' t' r', c' ≠ c ∧ A !! c' = Some (t', r') ∧ t' = t
                   ∧ (r' = r ∨ in_conflict self' c c'))).
  { split; intros (c' & t' & r' & Hne & HA & Ht & Hclash);
      exists c', t', r'; (do 3 (split; [done|]));
      (destruct Hclash as [?|Hc]; [by left|right; by apply Hrel]). }
  rewrite Hiff in H. rewrite <- H' in H.
  destruct (default true _), (default true _); try done.
  - destruct H as [_ H]. by rewrite H.
  - destruct H as [H _]. by rewrite H.
Qed.

(** X8.  The conflicts list is read as a set of unordered pairs: listing
    the pairs in another order, or a pair with its courses exchanged,
    leaves every result of the check as it is. *)
Theorem course_conflicts_unordered (ts rs : list string)
    (cs cs' : list (string * string)) (b : CSPProblem.fields)
    (h : gmap loc (list slot)) (A : gmap string slot) (c : string)
    (value : slot) :
  cs' ≡ₚ cs ∨ cs' = prod_swap <$> cs →
  (is_consistent c value (State (Instance ts rs cs' b) h A)).1
  = (is_consistent c value (State (Instance ts rs cs b) h A)).1.
Proof.
  intros Hcs. apply course_conflicts_relation. intros c1 c2.
  unfold in_conflict. simpl. destruct Hcs as [Hperm| ->].
  - by rewrite Hperm.
  - rewrite !list_elem_of_fmap. split.
    + intros [([a b'] & [= -> ->] & Hin)|([a b'] & [= -> ->] & Hin)]; auto.
    + intros [Hin|Hin]; [right|left]; by eexists (_, _).
Qed.

(** The conflict of the timetable written as (physics, math). *)
Lemma course_conflicts_unordered_timetable :
  (is_consistent "physics" ("08:00", "101")
     (State (Instance ["08:00"; "10:00"] ["101"] [("physics", "math")]
               (base timetable))
        timetable_heap (<["math" := ("08:00", "102")]> ∅))).1
  = (is_consistent "physics" ("08:00", "101")
       (State (Instance ["08:00"; "10:00"] ["101"] [("math", "physics")]
                 (base timetable))
          timetable_heap (<["math" := ("08:00", "102")]> ∅))).1.
Proof.
  apply course_conflicts_unordered. right. reflexivity.
Defined.

(** X9.  No double booking: in an assignment built from accepted pairs
    two distinct courses never hold the same slot, that is, the same room
    at the same time. *)
Theorem course_no_double_booking (self : instance)
    (h : gmap loc (list slot)) (A : gmap string slot) (c1 c2 : string)
    (s : slot) :
  built (accepts self h) A → c1 ≠ c2 →
  A !! c1 = Some s → A !! c2 ≠ Some s.
Proof.
  destruct s as [t r]. intros Hbuilt Hne H1 H2.
  by destruct (course_built_proper self h A Hbuilt c1 c2 t r t r).
Qed.

Lemma timetable_built :
  built (accepts timetable timetable_heap)
    (<["physics" := ("10:00", "101")]> (<["math" := ("08:00", "101")]> ∅)).
Proof.
  apply built_insert; [apply built_insert; [apply built_empty|]|];
    vm_compute; reflexivity.
Qed.

(** Mathematics holds room 101 at 08:00, so physics does not. *)
Lemma course_no_double_booking_timetable :
  built (accepts timetable timetable_heap)
    (<["physics" := ("10:00", "101")]> (<["math" := ("08:00", "101")]> ∅))
  ∧ (<["physics" := ("10:00", "101")]> (<["math" := ("08:00", "101")]> ∅)
       : gmap string slot) !! "physics" ≠ Some ("08:00", "101").
Proof.
  split; [exact timetable_built|].
  apply (course_no_double_booking timetable timetable_heap _ "math" "physics").
  - exact timetable_built.
  - discriminate.
  - vm_compute. reflexivity.
Defined.

Lemma built_values_distinct (self : instance) (h : gmap loc (list slot))
    (A : gmap string slot) :
  built (accepts self h) A → NoDup ((map_to_list A).*2).
Proof.
  intros Hbuilt. apply NoDup_fmap_2_strong; [|apply NoDup_map_to_list].
  intros [c1 s1] [c2 s2] H1%elem_of_map_to_list H2%elem_of_map_to_list Heq.
  simpl in Heq. subst s2. destruct (decide (c1 = c2)) as [->|Hne]; [done|].
  destruct s1 as [t r].
  by destruct (course_built_proper self h A Hbuilt c1 c2 t r t r).
Qed.

(** X10.  Capacity: an assignment built from accepted pairs whose slots
    combine a time of [time_slots] with a room of [rooms] holds at most
    [len(time_slots) * len(rooms)] courses. *)
Theorem course_capacity (self : instance) (h : gmap loc (list slot))
    (A : gmap string slot) :
  built (accepts self h) A →
  (∀ c s, A !! c = Some s →
          s ∈ possible_slots (time_slots self) (rooms self)) →
  size A ≤ length (time_slots self) * length (rooms self).
Proof.
  intros Hbuilt Hdom.
  rewrite <- possible_slots_length, <- length_map_to_list.
  rewrite <- (length_fmap snd). apply submseteq_length, NoDup_submseteq.
  - by eapply built_values_distinct.
  - intros s ([c s'] & -> & Hin%elem_of_map_to_list)%list_elem_of_fmap.
    by eapply Hdom.
Qed.

Lemma course_capacity_timetable :
  size (<["physics" := ("10:00", "101")]> (<["math" := ("08:00", "101")]> ∅)
          : gmap string slot)
  ≤ length (time_slots timetable) * length (rooms timetable).
Proof.
  apply (course_capacity timetable timetable_heap).
  - exact timetable_built.
  - intros c s Hs.
    apply lookup_insert_Some in Hs as [[_ <-]|[_ Hs]];
      [vm_compute; set_solver|].
    apply lookup_insert_Some in Hs as [[_ <-]|[_ Hs]];
      [vm_compute; set_solver|].
    by rewrite lookup_empty in Hs.
Defined.

End CourseSchedulingCapacity.

(** ** The candidate slots and the objects a constructor creates *)

Section Candidates.
Import Scenario CourseSchedulingProblem.

Lemma possible_slots_NoDup (ts rs : list string) :
  NoDup ts → NoDup rs → NoDup (possible_slots ts rs).
Proof.
  intros Hts Hrs. induction Hts as [|t ts Hnotin _ IH]; [constructor|].
  rewrite possible_slots_cons. apply NoDup_app. split_and!.
  - apply NoDup_fmap_2; [|done]. by intros r r' [= ->].
  - intros [t' r'] (r'' & [= -> ->] & _)%list_elem_of_fmap
      [Hin _]%possible_slots_elem.
    done.
  - done.
Qed.

(** X11.  The candidate slots are exactly the combinations of a time of
    [time_slots] with a room of [rooms]; there are none when either list
    is empty; and when neither list repeats an element no slot is listed
    twice. *)
Theorem possible_slots_combinations (ts rs : list string) :
  (∀ t r, (t, r) ∈ possible_slots ts rs ↔ t ∈ ts ∧ r ∈ rs)
  ∧ (possible_slots ts rs = [] ↔ ts = [] ∨ rs = [])
  ∧ (NoDup ts → NoDup rs → NoDup (possible_slots ts rs)).
Proof.
  split_and!.
  - apply possible_slots_elem.
  - rewrite <- !length_zero_iff_nil, possible_slots_length. lia.
  - apply possible_slots_NoDup.
Qed.

Lemma possible_slots_combinations_timetable :
  NoDup (possible_slots ["08:00"; "10:00"] ["101"]).
Proof.
  destruct (possible_slots_combinations ["08:00"; "10:00"] ["101"])
    as (_ & _ & Hnodup).
  apply Hnodup.
  - apply NoDup_cons. split; [|apply NoDup_singleton].
    intros H%list_elem_of_singleton. discriminate.
  - apply NoDup_singleton.
Defined.

End Candidates.

Section Allocation.
Context {V : Type}.

(** Every round of the comprehension creates one list object. *)
Lemma copies_size (keys : list string) (src : loc) (xs : list V)
    (d : gmap string loc) (h : gmap loc (list V)) :
  h !! src = Some xs →
  size (dict_comprehension keys (λ _, list_copy src) d h).2
  = size h + length keys.
Proof.
  revert d h. induction keys as [|key rest IH]; intros d h Hsrc; simpl.
  - lia.
  - unfold mbind at 1, M_bind at 1. rewrite (list_copy_run h src xs Hsrc).
    pose proof (fresh_unused h) as Hfresh.
    rewrite IH.
    + rewrite map_size_insert_None by done. lia.
    + rewrite lookup_insert_ne; [done|]. intros Heq. rewrite Heq in Hfresh.
      congruence.
Qed.

End Allocation.

Section Constructors.

(** X12.  What a constructor creates.  The map colouring constructor adds
    one list object per element of [regions], a repeated region included,
    and the course scheduling constructor one for the list of candidate
    slots and one per element of [courses]; the objects that existed
    before are kept as they were. *)
Theorem constructors_allocate :
  (∀ regions neighbors0 colors0 cs (h : gmap loc (list string)),
     h !! colors0 = Some cs →
     ∃ self h',
       MapColoringProblem.__init__ regions neighbors0 colors0 h
       = (Ok self, h')
       ∧ h ⊆ h' ∧ size h' = size h + length regions)
  ∧ (∀ courses0 time_slots0 rooms0 conflicts0
       (h : gmap loc (list CourseSchedulingProblem.slot)),
     ∃ self h',
       CourseSchedulingProblem.__init__ courses0 time_slots0 rooms0
         conflicts0 h = (Ok self, h')
       ∧ h ⊆ h' ∧ size h' = size h + S (length courses0)).
Proof.
  split.
  - intros regions neighbors0 colors0 cs h Hcs.
    destruct (map_init_run regions neighbors0 colors0 cs h Hcs)
      as (self & h' & Hrun & _ & _ & Hsub & _).
    exists self, h'. split_and!; [done..|].
    pose proof (copies_size regions colors0 cs ∅ h Hcs) as Hsize.
    unfold MapColoringProblem.__init__, mbind, M_bind in Hrun.
    destruct (dict_comprehension regions _ ∅ h) as [[d|e] h''];
      simpl in *; [|done].
    by injection Hrun as _ <-.
  - intros courses0 ts rs cf h.
    destruct (course_init_run courses0 ts rs cf h)
      as (self & h' & Hrun & _ & _ & _ & _ & Hsub & _).
    exists self, h'. split_and!; [done..|].
    unfold CourseSchedulingProblem.__init__, mbind at 1, M_bind at 1,
      list_new in Hrun.
    pose proof (fresh_unused h) as Hfresh.
    pose proof (copies_size courses0 (fresh (dom h))
                  (CourseSchedulingProblem.possible_slots ts rs) ∅
                  (<[fresh (dom h) :=
                       CourseSchedulingProblem.possible_slots ts rs]> h)
                  (lookup_insert_eq _ _ _)) as Hsize.
    rewrite map_size_insert_None in Hsize by done.
    unfold mbind, M_bind in Hrun.
    destruct (dict_comprehension courses0 _ ∅ _) as [[d|e] h''];
      simpl in *; [|done].
    injection Hrun as _ <-. lia.
Qed.

(** A region listed twice: two copies are made, one of them is kept. *)
Lemma constructors_allocate_twice :
  ∃ self h',
    MapColoringProblem.__init__ ["A"; "A"] ∅ 0 (<[0 := ["red"]]> ∅)
    = (Ok self, h')
    ∧ (<[0 := ["red"]]> ∅ : gmap loc (list string)) ⊆ h'
    ∧ size h' = size (<[0 := ["red"]]> ∅ : gmap loc (list string))
                + length ["A"; "A"].
Proof.
  destruct constructors_allocate as [Hmap _].
  apply (Hmap ["A"; "A"] ∅ 0 ["red"]). vm_compute. reflexivity.
Defined.

End Constructors.

(** ** What the cells print *)

Section Cells.
Import Scenario Notebook.

Lemma print_each {A} (f : A → string) (xs : list A) (out : list string) :
  for_each xs (λ x, print (f x);; mret (None : option ())) out
  = (Ok None, out ++ (f <$> xs)).
Proof.
  revert out. induction xs as [|x xs IH]; intros out; simpl.
  - by rewrite app_nil_r.
  - unfold mbind at 1, M_bind at 1. unfold mbind at 1, M_bind at 1.
    unfold print at 1. simpl. rewrite IH. by rewrite <- app_assoc.
Qed.

Lemma for_each_ext {S A R} (xs : list A) (body body' : A → M S (option R))
    (σ : S) :
  (∀ x σ', body x σ' = body' x σ') →
  for_each xs body σ = for_each xs body' σ.
Proof.
  intros Hext. revert σ. induction xs as [|x xs IH]; intros σ; simpl; [done|].
  unfold mbind, M_bind. rewrite Hext.
  destruct (body' x σ) as [[[r|]|e] σ']; done.
Qed.

Lemma show_coloring_run (solution : value string) (out : list string) :
  show_coloring solution out
  = match solution with
    | Dict (entry :: rest) =>
        (Ok (),
         out ++ "คำตอบการระบายสีแผนที่:"
         :: ((λ '(province, color), "  " +:+ province +:+ ": " +:+ color)
               <$> entry :: rest))
    | Dict [] | Object false => (Ok (), out ++ ["ไม่พบคำตอบ"])
    | Object true =>
        (Raise (AttributeError "items"), out ++ ["คำตอบการระบายสีแผนที่:"])
    end.
Proof.
  destruct solution as [[|entry rest]|[|]]; [done| |done|done].
  unfold show_coloring. change (truth _) with true. cbv beta iota.
  unfold mbind at 1, M_bind at 1, print at 1. cbv beta iota.
  unfold mbind at 1, M_bind at 1. unfold items at 1.
  unfold mbind at 1, M_bind at 1, mret at 1, M_ret at 1. cbv beta iota.
  rewrite (for_each_ext _ _ (λ x, print ((λ '(province, color),
             "  " +:+ province +:+ ": " +:+ color) x);;
             mret (None : option ()))) by by intros [? ?].
  rewrite print_each. simpl. by rewrite <- app_assoc.
Qed.

Lemma show_timetable_run (solution : value CourseSchedulingProblem.slot)
    (out : list string) :
  show_timetable solution out
  = match solution with
    | Dict (entry :: rest) =>
        (Ok (),
         out ++ "ตารางเรียนที่จัดได้:"
         :: ((λ '(course, (time, room)),
                "  " +:+ course +:+ ": " +:+ time +:+ " ที่ " +:+ room)
               <$> entry :: rest))
    | Dict [] | Object false => (Ok (), out ++ ["ไม่สามารถจัดตารางเรียนได้"])
    | Object true =>
        (Raise (AttributeError "items"), out ++ ["ตารางเรียนที่จัดได้:"])
    end.
Proof.
  destruct solution as [[|entry rest]|[|]]; [done| |done|done].
  unfold show_timetable. change (truth _) with true. cbv beta iota.
  unfold mbind at 1, M_bind at 1, print at 1. cbv beta iota.
  unfold mbind at 1, M_bind at 1. unfold items at 1.
  unfold mbind at 1, M_bind at 1, mret at 1, M_ret at 1. cbv beta iota.
  rewrite (for_each_ext _ _ (λ x, print ((λ '(course, (time, room)),
             "  " +:+ course +:+ ": " +:+ time +:+ " ที่ " +:+ room) x);;
             mret (None : option ()))) by by intros [? [? ?]].
  rewrite print_each. simpl. by rewrite <- app_assoc.
Qed.

End Cells.

Section CellsReport.
Import Scenario Notebook.

(** X13.  A cell keeps what was printed before it and prints its banner,
    and what follows depends on the value the search hands back.  For a
    dictionary with entries it prints the header and one line per entry, in
    the order of the dictionary.  For a dictionary without entries and for
    any other value that counts as false, [None] among them, it prints the
    not-found line.  In these cases it raises nothing.  For a value that
    counts as true and is no dictionary it prints the header and then
    raises [AttributeError] at [solution.items()]. *)
Theorem cells_report :
  (∀ search provinces0 neighbors0 colors0 out,
     ∃ self h,
       MapColoringProblem.__init__ provinces0 neighbors0 0
         (<[0 := colors0]> ∅) = (Ok self, h)
       ∧ map_coloring_cell search provinces0 neighbors0 colors0 out
         = match search self h with
           | Dict (entry :: rest) =>
               (Ok (),
                out ++ (newline +:+ "=== Map Coloring Problem ===")
                :: "คำตอบการระบายสีแผนที่:"
                :: ((λ '(province, color),
                       "  " +:+ province +:+ ": " +:+ color)
                      <$> entry :: rest))
           | Dict [] | Object false =>
               (Ok (),
                out ++ [newline +:+ "=== Map Coloring Problem ===";
                        "ไม่พบคำตอบ"])
           | Object true =>
               (Raise (AttributeError "items"),
                out ++ [newline +:+ "=== Map Coloring Problem ===";
                        "คำตอบการระบายสีแผนที่:"])
           end)
  ∧ (∀ search courses0 time_slots0 rooms0 conflicts0 out,
       ∃ self h,
         CourseSchedulingProblem.__init__ courses0 time_slots0 rooms0
           conflicts0 ∅ = (Ok self, h)
         ∧ course_scheduling_cell search courses0 time_slots0 rooms0
             conflicts0 out
           = match search self h with
             | Dict (entry :: rest) =>
                 (Ok (),
                  out ++ (newline +:+ "=== Course Scheduling Problem ===")
                  :: "ตารางเรียนที่จัดได้:"
                  :: ((λ '(course, (time, room)),
                         "  " +:+ course +:+ ": " +:+ time +:+ " ที่ "
                         +:+ room)
                        <$> entry :: rest))
             | Dict [] | Object false =>
                 (Ok (),
                  out ++ [newline +:+ "=== Course Scheduling Problem ===";
                          "ไม่สามารถจัดตารางเรียนได้"])
             | Object true =>
                 (Raise (AttributeError "items"),
                  out ++ [newline +:+ "=== Course Scheduling Problem ===";
                          "ตารางเรียนที่จัดได้:"])
             end).
Proof.
  split.
  - intros search provinces0 neighbors0 colors0 out.
    destruct (map_init_run provinces0 neighbors0 0 colors0
                (<[0 := colors0]> ∅) (lookup_insert_eq _ _ _))
      as (self & h & Hrun & _).
    exists self, h. split; [done|].
    unfold map_coloring_cell, mbind at 1, M_bind at 1, print at 1.
    cbv beta iota.
    match goal with
    | |- context [let (r, h0) := ?run in _] =>
        replace run with (Ok self, h) by (symmetry; exact Hrun)
    end.
    rewrite show_coloring_run.
    destruct (search self h) as [[|entry rest]|[|]];
      by rewrite <- app_assoc.
  - intros search courses0 time_slots0 rooms0 conflicts0 out.
    destruct (course_init_run courses0 time_slots0 rooms0 conflicts0 ∅)
      as (self & h & Hrun & _).
    exists self, h. split; [done|].
    unfold course_scheduling_cell, mbind at 1, M_bind at 1, print at 1.
    cbv beta iota.
    match goal with
    | |- context [let (r, h0) := ?run in _] =>
        replace run with (Ok self, h) by (symmetry; exact Hrun)
    end.
    rewrite show_timetable_run.
    destruct (search self h) as [[|entry rest]|[|]];
      by rewrite <- app_assoc.
Qed.

End CellsReport.

(** ** Assignments built from accepted pairs *)

Section BuiltAssignments.

(** An assignment every entry of which passes the check against the other
    entries can be built from accepted pairs, whatever the predicate, as
    long as a pair accepted against an assignment is accepted against its
    parts. *)
Lemma valid_built {V} (accepts : string → V → gmap string V → bool)
    (A : gmap string V) :
  (∀ v x B B', B ⊆ B' → accepts v x B' = true → accepts v x B = true) →
  (∀ v x, A !! v = Some x → accepts v x (delete v A) = true) →
  built accepts A.
Proof.
  intros Hanti. induction A as [|v x A Hnone _ IH] using map_first_key_ind.
  - intros _. constructor.
  - intros Hvalid. constructor.
    + apply IH. intros u y Hu.
      assert (Huv : u ≠ v) by (intros ->; congruence).
      apply (Hanti u y _ (delete u (<[v := x]> A))).
      * apply delete_mono, insert_subseteq. done.
      * apply Hvalid. by rewrite lookup_insert_ne.
    + specialize (Hvalid v x (lookup_insert_eq _ _ _)).
      by rewrite delete_insert_id in Hvalid.
Qed.

End BuiltAssignments.

Section MapColoringBuilt.
Import Scenario MapColoringProblem.

Lemma map_accepts_antitone (self : instance) (h : gmap loc (list string))
    (v x : string) (B B' : gmap string string) :
  B ⊆ B' → accepts self h v x B' = true → accepts self h v x B = true.
Proof.
  intros Hsub. rewrite !map_accepts_iff. intros Hall n Hn Hx.
  apply (Hall n Hn). by eapply lookup_weaken.
Qed.

(** X14.  With every adjacency listed in both directions, the assignments
    that can be built from accepted pairs are exactly the partial
    colourings in which every coloured region passes the check against
    the other coloured regions. *)
Theorem map_built_iff_proper (self : instance) (h : gmap loc (list string))
    (A : gmap string string) :
  symmetric self →
  built (accepts self h) A
  ↔ ∀ v x, A !! v = Some x →
      (is_consistent v x (State self h (delete v A))).1 = Ok true.
Proof.
  intros Hsym. split.
  - intros Hbuilt v x Hv. apply map_result_true. simpl. intros n Hn.
    destruct (decide (v = n)) as [<-|Hne]; [by rewrite lookup_delete_eq|].
    rewrite lookup_delete_ne by done. intros Hx.
    by apply (map_built_proper self h A Hsym Hbuilt v n x x).
  - intros Hvalid. apply valid_built.
    + intros v x B B'. apply map_accepts_antitone.
    + intros v x Hv. specialize (Hvalid v x Hv).
      unfold accepts, holds. by rewrite Hvalid.
Qed.

Lemma map_built_iff_proper_row :
  built (accepts row row_heap) (<["B" := "green"]> (<["A" := "red"]> ∅))
  ↔ ∀ v x,
      (<["B" := "green"]> (<["A" := "red"]> ∅) : gmap string string) !! v
      = Some x →
      (is_consistent v x
         (State row row_heap
            (delete v (<["B" := "green"]> (<["A" := "red"]> ∅))))).1
      = Ok true.
Proof.
  apply map_built_iff_proper. exact row_symmetric.
Defined.

End MapColoringBuilt.

Section CourseSchedulingBuilt.
Import Scenario CourseSchedulingProblem.

Lemma course_accepts_antitone (self : instance) (h : gmap loc (list slot))
    (c : string) (s : slot) (B B' : gmap string slot) :
  B ⊆ B' → accepts self h c s B' = true → accepts self h c s B = true.
Proof.
  destruct s as [t r]. intros Hsub Hacc.
  destruct (accepts self h c (t, r) B) eqn:HB; [done|].
  apply course_accepts_false in HB as (c' & t' & r' & Hne & HB & Hrest).
  assert (accepts self h c (t, r) B' = false) as Hfalse; [|congruence].
  apply course_accepts_false. exists c', t', r'. split; [done|].
  split; [by eapply lookup_weaken|done].
Qed.

(** X15.  The assignments that can be built from accepted pairs are
    exactly the timetables in which every course passes the check against
    the other courses. *)
Theorem course_built_iff_valid (self : instance) (h : gmap loc (list slot))
    (A : gmap string slot) :
  built (accepts self h) A
  ↔ ∀ c s, A !! c = Some s →
      (is_consistent c s (State self h (delete c A))).1 = Ok true.
Proof.
  split.
  - intros Hbuilt c [t r] Hc. apply course_result_true. simpl.
    intros c' t' r' Hne Hc' ->.
    rewrite lookup_delete_ne in Hc' by done.
    destruct (course_built_proper self h A Hbuilt c c' t r t r')
      as [Hr Hconf]; [done..|].
    split; [by intros ->|done].
  - intros Hvalid. apply valid_built.
    + intros c s B B'. apply course_accepts_antitone.
    + intros c s Hc. specialize (Hvalid c s Hc).
      unfold accepts, holds. by rewrite Hvalid.
Qed.

(** X16.  With more times than assigned courses some time is free: in
    every room the check accepts a slot at one of the times of a
    duplicate-free list that is longer than the assignment. *)
Theorem course_some_time_accepted (self : instance)
    (h : gmap loc (list slot)) (A : gmap string slot) (c room : string)
    (times : list string) :
  NoDup times → size A < length times →
  ∃ t, t ∈ times ∧ (is_consistent c (t, room) (State self h A)).1 = Ok true.
Proof.
  intros Hnodup Hlen.
  set (used := (map_to_list A).*2.*1).
  destruct (decide (Exists (λ t, t ∉ used) times)) as [Hex|Hno].
  - apply Exists_exists in Hex as (t & Ht & Hfree). exists t.
    split; [done|]. apply course_result_true. simpl.
    intros c' t' r' _ Hc' Heq. subst t'. destruct Hfree. unfold used.
    apply list_elem_of_fmap. exists (t, r'). split; [done|].
    apply list_elem_of_fmap. exists (c', (t, r')). split; [done|].
    by apply elem_of_map_to_list.
  - exfalso.
    assert (Hall : ∀ t, t ∈ times → t ∈ used).
    { intros t Ht. destruct (decide (t ∈ used)) as [|Hout]; [done|].
      destruct Hno. apply Exists_exists. eauto. }
    pose proof (submseteq_length _ _ (NoDup_submseteq _ _ Hnodup Hall)) as Hle.
    unfold used in Hle. rewrite !length_fmap, length_map_to_list in Hle.
    apply (Nat.lt_irrefl (size A)).
    eapply Nat.lt_le_trans; [exact Hlen | exact Hle].
Qed.

Lemma course_some_time_accepted_timetable :
  ∃ t, t ∈ ["08:00"; "10:00"]
       ∧ (is_consistent "physics" (t, "101")
            (State timetable timetable_heap
               (<["math" := ("08:00", "101")]> ∅))).1 = Ok true.
Proof.
  apply course_some_time_accepted.
  - apply NoDup_cons. split; [|apply NoDup_singleton].
    intros H%list_elem_of_singleton. discriminate.
  - vm_compute. lia.
Defined.

End CourseSchedulingBuilt.

(** ** The recorded outputs *)

Section RecordedOutputs.
Import Scenario Notebook.

(** The text the map colouring notebook recorded, line by line. *)
Example map_coloring_cell_output :
  map_coloring_cell search_map provinces province_neighbors colors []
  = (Ok (),
     [newline +:+ "=== Map Coloring Problem ===";
      "คำตอบการระบายสีแผนที่:";
      "  กรุงเทพมหานคร: แดง";
      "  นนทบุรี: เขียว";
      "  ปทุมธานี: น้ำเงิน";
      "  สมุทรปราการ: เขียว";
      "  นครปฐม: แดง"]).
Proof. vm_compute. reflexivity. Qed.

(** The text the course scheduling notebook recorded. *)
Example course_scheduling_cell_output :
  course_scheduling_cell search_courses courses time_slots rooms conflicts []
  = (Ok (),
     [newline +:+ "=== Course Scheduling Problem ===";
      "ตารางเรียนที่จัดได้:";
      "  คณิตศาสตร์: 08:00-10:00 ที่ ห้อง101";
      "  ฟิสิกส์: 10:00-12:00 ที่ ห้อง101";
      "  เคมี: 08:00-10:00 ที่ ห้อง102";
      "  ชีววิทยา: 10:00-12:00 ที่ ห้อง102";
      "  ประวัติศาสตร์: 08:00-10:00 ที่ ห้อง201"]).
Proof. vm_compute. reflexivity. Qed.

End RecordedOutputs.
